(** * Cpp-stream: a shallow embedding of [stream_utils.h] and [stream.h]

    The library composes pull-based generators.  Every generator class has
    an [operator()] returning [std::optional<value_type>], a copy
    constructor and a move constructor; [Stream<StreamGenerator, Tag>]
    owns one generator and dispatches combinators and terminal operations
    through [operator|].

    Conventions of the embedding:
    - a generator object is a record of its data members; [operator()]
      takes the object and returns the optional together with the updated
      object (explicit state passing);
    - [size_t] is a 64-bit unsigned integer, held in [N] with the
      wrap-around of [++] written out;
    - a forward iterator into a [std::vector] is the offset from
      [begin()]; a reverse iterator is the offset of its [base()];
    - every [while]/[do-while] loop is a fixpoint on a fuel argument; a run
      that needs more iterations than the fuel allows is [OutOfFuel];
    - dereferencing an iterator outside its container is undefined
      behaviour and is the result [Undefined];
    - a [static_assert] that fails rejects the program at compile time; it
      is the outcome [static_assert_failure], produced before the generator
      is looked at. *)

From Stdlib Require Import DecimalString String Bool NArith ZArith Arith Lia List.
Import ListNotations.

Set Implicit Arguments.

(** ** Machine integers *)

Definition SIZE_WIDTH : N := 64.
Definition SIZE_MAX : N := 2 ^ SIZE_WIDTH - 1.

(** [++i] on a [size_t]. *)
Definition size_t_incr (i : N) : N := (i + 1) mod 2 ^ SIZE_WIDTH.

Arguments size_t_incr : simpl never.

(** ** Runs: results, undefined behaviour and fuel *)

Inductive run (A : Type) : Type :=
| Ret (a : A)
| Undefined
| OutOfFuel.

Arguments Ret {A} a.
Arguments Undefined {A}.
Arguments OutOfFuel {A}.

Definition bind {A B : Type} (m : run A) (k : A -> run B) : run B :=
  match m with
  | Ret a => k a
  | Undefined => Undefined
  | OutOfFuel => OutOfFuel
  end.

Declare Scope run_scope.
Delimit Scope run_scope with run.
Notation "x <- m ;; k" := (bind m (fun x => k))
  (at level 61, m at next level, right associativity) : run_scope.
Notation "' p <- m ;; k" := (bind m (fun x => match x with p => k end))
  (at level 61, p pattern, m at next level, right associativity) : run_scope.
Open Scope run_scope.

(** [eventually m a]: with enough fuel the run [m] returns [a]. *)
Definition eventually {A : Type} (m : nat -> run A) (a : A) : Prop :=
  exists f0, forall f, f0 <= f -> m f = Ret a.

(** [diverges m]: no amount of fuel lets [m] finish. *)
Definition diverges {A : Type} (m : nat -> run A) : Prop :=
  forall f, m f = OutOfFuel.

(** ** The generator interface

    [stream_utils.h] has no base class: a generator is any class with
    [value_type], [operator()], and copy and move constructors.  [call] is
    [operator()], returning the [std::optional] and the generator after the
    call. *)

Class Generator (G T : Type) : Type := {
  call : nat -> G -> run (option T * G);
  copy_ctor : G -> G;
  move_ctor : G -> G
}.

(** A zero-argument callable as [InfiniteGenerator] receives it: the code
    of its [operator()] and the state it captured by value. *)
Record ValueGenerator (St T : Type) : Type := {
  invoke : St -> T * St;
  captured : St
}.

(** *** [InfiniteGenerator<Generator>] *)
Module InfiniteGenerator.

Record t (St T : Type) : Type := Build {
  value_generator_ : ValueGenerator St T
}.

Definition ctor {St T : Type} (value_generator : ValueGenerator St T) : t St T :=
  {| value_generator_ := value_generator |}.

(** [InfiniteGenerator(const InfiniteGenerator &) = default]. *)
Definition copy {St T : Type} (other : t St T) : t St T :=
  {| value_generator_ := value_generator_ other |}.

Definition move {St T : Type} (other : t St T) : t St T :=
  {| value_generator_ := value_generator_ other |}.

(** [return {value_generator_()};] *)
Definition operator_call {St T : Type} (this : t St T) : run (option T * t St T) :=
  let vg := value_generator_ this in
  let (v, st) := invoke vg (captured vg) in
  Ret (Some v, {| value_generator_ := {| invoke := invoke vg; captured := st |} |}).

#[global] Instance generator {St T : Type} : Generator (t St T) T := {
  call := fun _ => operator_call;
  copy_ctor := copy;
  move_ctor := move
}.

End InfiniteGenerator.

(** *** [PackGenerator<T>]

    [container_iterator] is a [const_reverse_iterator]: [current_] and
    [end_] hold the offset of [base()].  [crbegin()] has base [size()],
    [crend()] has base [0]; [reverse_iterator(cbegin())] has base [0] and
    [reverse_iterator(cend())] has base [size()].

    The defaulted copy constructor copies the two iterators as they are:
    they keep pointing into the buffer of [other], whose contents equal
    the copied [container_].  A read through such an iterator is a read of
    [container_] as long as [other] is alive and not modified.  That holds
    for the copy a terminal operation takes of the stored generator and
    for the copy a combinator takes before it moves it, which is where the
    properties below use [copy]; it does not hold for a copy that outlives
    its source, and nothing is stated about such a copy. *)
Module PackGenerator.

Record t (T : Type) : Type := Build {
  container_ : list T;
  current_ : nat;
  end_ : nat
}.

(** [PackGenerator() = default]. *)
Definition default_ctor {T : Type} : t T :=
  {| container_ := []; current_ := 0; end_ := 0 |}.

(** [PackGenerator(const PackGenerator & other) = default]. *)
Definition copy {T : Type} (other : t T) : t T :=
  {| container_ := container_ other;
     current_ := current_ other;
     end_ := end_ other |}.

(** [container_(std::move(other.container_)), current_(container_.cbegin()),
    end_(container_.cend())]. *)
Definition move {T : Type} (other : t T) : t T :=
  {| container_ := container_ other;
     current_ := 0;
     end_ := length (container_ other) |}.

(** [container_.push_back(value); current_ = container_.crbegin();
    end_ = container_.crend();] *)
Definition push_back {T : Type} (this : t T) (value : T) : t T :=
  let c := container_ this ++ [value] in
  {| container_ := c; current_ := length c; end_ := 0 |}.

(** [if (current_ == end_) return std::nullopt; return {*(current_++)};]
    Dereferencing a reverse iterator of base [b] reads element [b - 1];
    at base [0] that is one before the buffer. *)
Definition operator_call {T : Type} (this : t T) : run (option T * t T) :=
  if current_ this =? end_ this then Ret (None, this)
  else
    match current_ this with
    | 0 => Undefined
    | S b =>
        match nth_error (container_ this) b with
        | Some v =>
            Ret (Some v,
                 {| container_ := container_ this; current_ := b; end_ := end_ this |})
        | None => Undefined
        end
    end.

#[global] Instance generator {T : Type} : Generator (t T) T := {
  call := fun _ => operator_call;
  copy_ctor := copy;
  move_ctor := move
}.

End PackGenerator.

(** *** [ContainerGenerator<Container>]

    [container_iterator] is a [const_iterator]: [current_] and [end_] are
    offsets from [cbegin()].  Every constructor re-seats both iterators on
    the object's own [container_]. *)
Module ContainerGenerator.

Record t (T : Type) : Type := Build {
  container_ : list T;
  current_ : nat;
  end_ : nat
}.

Definition ctor {T : Type} (container : list T) : t T :=
  {| container_ := container; current_ := 0; end_ := length container |}.

Definition copy {T : Type} (other : t T) : t T :=
  {| container_ := container_ other;
     current_ := 0;
     end_ := length (container_ other) |}.

Definition move {T : Type} (other : t T) : t T :=
  {| container_ := container_ other;
     current_ := 0;
     end_ := length (container_ other) |}.

(** [if (current_ == end_) return std::nullopt; return {*(current_++)};] *)
Definition operator_call {T : Type} (this : t T) : run (option T * t T) :=
  if current_ this =? end_ this then Ret (None, this)
  else
    match nth_error (container_ this) (current_ this) with
    | Some v =>
        Ret (Some v,
             {| container_ := container_ this;
                current_ := S (current_ this);
                end_ := end_ this |})
    | None => Undefined
    end.

#[global] Instance generator {T : Type} : Generator (t T) T := {
  call := fun _ => operator_call;
  copy_ctor := copy;
  move_ctor := move
}.

End ContainerGenerator.

(** *** [SkipGenerator<ParentGenerator>] *)
Module SkipGenerator.

Record t (G : Type) : Type := Build {
  parent_gen_ : G;
  amount_to_skip_ : N;
  skipped_ : bool
}.

Section Methods.
Context {G T : Type} `{Generator G T}.

(** [parent_gen_(parent_gen), amount_to_skip_(amount), skipped_(false)]:
    the parent is taken by const reference and copied. *)
Definition ctor (parent_gen : G) (amount : N) : t G :=
  {| parent_gen_ := copy_ctor parent_gen;
     amount_to_skip_ := amount;
     skipped_ := false |}.

(** [SkipGenerator(const SkipGenerator &) = default]: member-wise. *)
Definition copy (other : t G) : t G :=
  {| parent_gen_ := copy_ctor (parent_gen_ other);
     amount_to_skip_ := amount_to_skip_ other;
     skipped_ := skipped_ other |}.

Definition move (other : t G) : t G :=
  {| parent_gen_ := move_ctor (parent_gen_ other);
     amount_to_skip_ := amount_to_skip_ other;
     skipped_ := skipped_ other |}.

(** [while (i < amount_to_skip_ && (opt = parent_gen_())) { ++i; }]
    returns the final [i] and the parent after the loop. *)
Fixpoint skip_loop (fuel : nat) (amount i : N) (parent : G) : run (N * G) :=
  if (i <? amount)%N then
    match fuel with
    | 0 => OutOfFuel
    | S fuel' =>
        '(opt, parent') <- call fuel' parent ;;
        match opt with
        | Some _ => skip_loop fuel' amount (size_t_incr i) parent'
        | None => Ret (i, parent')
        end
    end
  else Ret (i, parent).

Definition operator_call (fuel : nat) (this : t G) : run (option T * t G) :=
  if negb (skipped_ this) then
    '(i, parent) <- skip_loop fuel (amount_to_skip_ this) 0%N (parent_gen_ this) ;;
    let this' := {| parent_gen_ := parent;
                    amount_to_skip_ := amount_to_skip_ this;
                    skipped_ := true |} in
    if (i <? amount_to_skip_ this)%N then Ret (None, this')
    else
      '(opt, parent') <- call fuel parent ;;
      Ret (opt, {| parent_gen_ := parent';
                   amount_to_skip_ := amount_to_skip_ this;
                   skipped_ := true |})
  else
    '(opt, parent') <- call fuel (parent_gen_ this) ;;
    Ret (opt, {| parent_gen_ := parent';
                 amount_to_skip_ := amount_to_skip_ this;
                 skipped_ := skipped_ this |}).

#[global] Instance generator : Generator (t G) T := {
  call := operator_call;
  copy_ctor := copy;
  move_ctor := move
}.

End Methods.
End SkipGenerator.

(** *** [GetGenerator<ParentGenerator>] *)
Module GetGenerator.

Record t (G : Type) : Type := Build {
  parent_gen_ : G;
  amount_to_get_ : N;
  amount_got_ : N
}.

Section Methods.
Context {G T : Type} `{Generator G T}.

Definition ctor (parent_gen : G) (amount : N) : t G :=
  {| parent_gen_ := copy_ctor parent_gen;
     amount_to_get_ := amount;
     amount_got_ := 0 |}.

(** [GetGenerator(const GetGenerator &) = default]: member-wise. *)
Definition copy (other : t G) : t G :=
  {| parent_gen_ := copy_ctor (parent_gen_ other);
     amount_to_get_ := amount_to_get_ other;
     amount_got_ := amount_got_ other |}.

Definition move (other : t G) : t G :=
  {| parent_gen_ := move_ctor (parent_gen_ other);
     amount_to_get_ := amount_to_get_ other;
     amount_got_ := amount_got_ other |}.

(** [if (amount_got_ >= amount_to_get_) return std::nullopt;
    ++amount_got_; return parent_gen_();] *)
Definition operator_call (fuel : nat) (this : t G) : run (option T * t G) :=
  if (amount_to_get_ this <=? amount_got_ this)%N then Ret (None, this)
  else
    '(opt, parent') <- call fuel (parent_gen_ this) ;;
    Ret (opt, {| parent_gen_ := parent';
                 amount_to_get_ := amount_to_get_ this;
                 amount_got_ := size_t_incr (amount_got_ this) |}).

#[global] Instance generator : Generator (t G) T := {
  call := operator_call;
  copy_ctor := copy;
  move_ctor := move
}.

End Methods.
End GetGenerator.

(** *** [FilterGenerator<ParentGenerator, Predicate>]

    The predicate is a function object without state of its own. *)
Module FilterGenerator.

Record t (G T : Type) : Type := Build {
  parent_gen_ : G;
  predicate_ : T -> bool
}.

Section Methods.
Context {G T : Type} `{Generator G T}.

Definition ctor (parent_gen : G) (predicate : T -> bool) : t G T :=
  {| parent_gen_ := copy_ctor parent_gen; predicate_ := predicate |}.

Definition copy (other : t G T) : t G T :=
  {| parent_gen_ := copy_ctor (parent_gen_ other);
     predicate_ := predicate_ other |}.

Definition move (other : t G T) : t G T :=
  {| parent_gen_ := move_ctor (parent_gen_ other);
     predicate_ := predicate_ other |}.

(** [while ((opt = parent_gen_()) && !predicate_(opt.value())); return opt;] *)
Fixpoint filter_loop (fuel : nat) (predicate : T -> bool) (parent : G)
  : run (option T * G) :=
  match fuel with
  | 0 => OutOfFuel
  | S fuel' =>
      '(opt, parent') <- call fuel' parent ;;
      match opt with
      | Some v =>
          if negb (predicate v) then filter_loop fuel' predicate parent'
          else Ret (Some v, parent')
      | None => Ret (None, parent')
      end
  end.

Definition operator_call (fuel : nat) (this : t G T) : run (option T * t G T) :=
  '(opt, parent') <- filter_loop fuel (predicate_ this) (parent_gen_ this) ;;
  Ret (opt, {| parent_gen_ := parent'; predicate_ := predicate_ this |}).

#[global] Instance generator : Generator (t G T) T := {
  call := operator_call;
  copy_ctor := copy;
  move_ctor := move
}.

End Methods.
End FilterGenerator.

(** *** [GroupGenerator<ParentGenerator>] *)
Module GroupGenerator.

Record t (G : Type) : Type := Build {
  parent_gen_ : G;
  group_size_ : N
}.

Section Methods.
Context {G T : Type} `{Generator G T}.

Definition ctor (parent_gen : G) (group_size : N) : t G :=
  {| parent_gen_ := copy_ctor parent_gen; group_size_ := group_size |}.

Definition copy (other : t G) : t G :=
  {| parent_gen_ := copy_ctor (parent_gen_ other);
     group_size_ := group_size_ other |}.

Definition move (other : t G) : t G :=
  {| parent_gen_ := move_ctor (parent_gen_ other);
     group_size_ := group_size_ other |}.

(** [do { group.push_back(opt.value()); ++i; }
     while (i < group_size_ && (opt = parent_gen_()));]
    entered with [opt] holding [v]; returns the group and the parent. *)
Fixpoint group_loop (fuel : nat) (group_size : N) (group : list T) (i : N)
  (v : T) (parent : G) : run (list T * G) :=
  let group' := group ++ [v] in
  let i' := size_t_incr i in
  if (i' <? group_size)%N then
    match fuel with
    | 0 => OutOfFuel
    | S fuel' =>
        '(opt, parent') <- call fuel' parent ;;
        match opt with
        | Some v' => group_loop fuel' group_size group' i' v' parent'
        | None => Ret (group', parent')
        end
    end
  else Ret (group', parent).

Definition operator_call (fuel : nat) (this : t G) : run (option (list T) * t G) :=
  '(opt, parent) <- call fuel (parent_gen_ this) ;;
  match opt with
  | None =>
      Ret (None, {| parent_gen_ := parent; group_size_ := group_size_ this |})
  | Some v =>
      '(group, parent') <- group_loop fuel (group_size_ this) [] 0%N v parent ;;
      Ret (Some group,
           {| parent_gen_ := parent'; group_size_ := group_size_ this |})
  end.

#[global] Instance generator : Generator (t G) (list T) := {
  call := operator_call;
  copy_ctor := copy;
  move_ctor := move
}.

End Methods.
End GroupGenerator.

(** *** [MapGenerator<ParentGenerator, Transform>] *)
Module MapGenerator.

Record t (G T U : Type) : Type := Build {
  parent_gen_ : G;
  transform_ : T -> U
}.

Section Methods.
Context {G T U : Type} `{Generator G T}.

Definition ctor (parent_gen : G) (transform : T -> U) : t G T U :=
  {| parent_gen_ := copy_ctor parent_gen; transform_ := transform |}.

Definition copy (other : t G T U) : t G T U :=
  {| parent_gen_ := copy_ctor (parent_gen_ other);
     transform_ := transform_ other |}.

Definition move (other : t G T U) : t G T U :=
  {| parent_gen_ := move_ctor (parent_gen_ other);
     transform_ := transform_ other |}.

Definition operator_call (fuel : nat) (this : t G T U) : run (option U * t G T U) :=
  '(opt, parent') <- call fuel (parent_gen_ this) ;;
  let this' := {| parent_gen_ := parent'; transform_ := transform_ this |} in
  match opt with
  | None => Ret (None, this')
  | Some v => Ret (Some (transform_ this v), this')
  end.

#[global] Instance generator : Generator (t G T U) U := {
  call := operator_call;
  copy_ctor := copy;
  move_ctor := move
}.

End Methods.
End MapGenerator.

(** ** [stream.h] *)
Module cppstream.

(** *** Operation objects *)

(** [print_to]: the sink is the text written to it so far. *)
Record print_to : Type := {
  ostream : string;
  delimiter : string
}.

Definition print_to_ctor (os : string) (delimiter : option string) : print_to :=
  {| ostream := os;
     delimiter := match delimiter with Some d => d | None => " "%string end |}.

Record nth : Type := { n : N }.

Record reduce (U T : Type) : Type := {
  identity : T -> U;
  accumulator : U -> T -> U
}.

(** [reduce(Accumulator &&)]: the identity is [static_cast<U>]. *)
Definition reduce_ctor1 {U T : Type} (static_cast : T -> U)
  (accumulator : U -> T -> U) : reduce U T :=
  {| identity := static_cast; accumulator := accumulator |}.

Definition reduce_ctor2 {U T : Type} (identity : T -> U)
  (accumulator : U -> T -> U) : reduce U T :=
  {| identity := identity; accumulator := accumulator |}.

Inductive to_vector : Type := to_vector_ctor.

Inductive sum : Type := sum_ctor.

Record skip : Type := { skip_amount : N }.

Record get : Type := { get_amount : N }.

Record group : Type := { group_size : N }.

(** [explicit group(size_t group_size) : group_size(group_size)]; the body
    holds only the commented-out line
    [// assert(group_size > 0, "Groups can only have positive size.");]. *)
Definition group_ctor (group_size : N) : group :=
  {| group_size := group_size |}.

Record filter (T : Type) : Type := { predicate : T -> bool }.

Record map (T U : Type) : Type := { transform : T -> U }.

(** *** Errors *)

Inductive exception : Type :=
| IllegalStreamOperation (what : string)
| bad_optional_access.

(** What a call of a terminal [operator|] comes to. *)
Inductive outcome (A : Type) : Type :=
| Returns (a : A)
| Throws (e : exception)
| static_assert_failure (msg : string).

Arguments Returns {A} a.
Arguments Throws {A} e.
Arguments static_assert_failure {A} msg.

(** *** [Stream<StreamGenerator, Tag>] *)

Inductive StreamTag : Type := Finite | Infinite.

(** The template argument [Tag] is the field [tag]. *)
Record Stream (G : Type) : Type := {
  tag : StreamTag;
  generator_ : G
}.

Definition is_finite {G : Type} (s : Stream G) : bool :=
  match tag s with Finite => true | Infinite => false end.

(** [explicit Stream(ValueGenerator && generator)], with its deduction
    guide. *)
Definition Stream_value_generator {St T : Type} (generator : ValueGenerator St T)
  : Stream (InfiniteGenerator.t St T) :=
  {| tag := Infinite; generator_ := InfiniteGenerator.ctor generator |}.

(** [Stream(Iterator first, Iterator last)]: the range is given by its
    elements. *)
Definition Stream_range {T : Type} (range : list T) : Stream (ContainerGenerator.t T) :=
  {| tag := Finite; generator_ := ContainerGenerator.ctor range |}.

(** [explicit Stream(const Container &)] and [explicit Stream(Container &&)]. *)
Definition Stream_container {T : Type} (container : list T)
  : Stream (ContainerGenerator.t T) :=
  {| tag := Finite; generator_ := ContainerGenerator.ctor container |}.

(** [Stream(std::initializer_list<T> il)]. *)
Definition Stream_initializer_list {T : Type} (il : list T)
  : Stream (ContainerGenerator.t T) :=
  {| tag := Finite; generator_ := ContainerGenerator.ctor il |}.

(** [Stream(T first, Args... args) : Stream(args...)
    { generator_.push_back(first); }] and its one-argument base case. *)
Fixpoint Stream_pack {T : Type} (first : T) (args : list T)
  : Stream (PackGenerator.t T) :=
  match args with
  | [] =>
      {| tag := Finite;
         generator_ := PackGenerator.push_back PackGenerator.default_ctor first |}
  | a :: args' =>
      let s := Stream_pack a args' in
      {| tag := tag s; generator_ := PackGenerator.push_back (generator_ s) first |}
  end.

(** The private [Stream(StreamGen && generator, StreamTag unused)]:
    [generator_(std::move(generator))]. *)
Definition Stream_private {G T : Type} `{Generator G T} (generator : G)
  (new_tag : StreamTag) : Stream G :=
  {| tag := new_tag; generator_ := move_ctor generator |}.

Section Members.
Context {G T : Type} `{Generator G T}.

(** [Stream(Stream && other)] and [Stream(const Stream &) = default]. *)
Definition Stream_move (other : Stream G) : Stream G :=
  {| tag := tag other; generator_ := move_ctor (generator_ other) |}.

Definition Stream_copy (other : Stream G) : Stream G :=
  {| tag := tag other; generator_ := copy_ctor (generator_ other) |}.

(** **** Terminal operations

    Each one starts with [StreamGenerator gen(generator_);]. *)

(** [while (opt = gen()) { os << delimiter << opt.value(); }] *)
Fixpoint print_to_loop (show : T -> string) (fuel : nat) (delim os : string) (gen : G)
  : run string :=
  match fuel with
  | 0 => OutOfFuel
  | S fuel' =>
      '(opt, gen') <- call fuel' gen ;;
      match opt with
      | Some v => print_to_loop show fuel' delim (os ++ delim ++ show v)%string gen'
      | None => Ret os
      end
  end.

Definition pipe_print_to (show : T -> string) (fuel : nat) (s : Stream G)
  (operation_props : print_to) : run (outcome string) :=
  match tag s with
  | Infinite =>
      Ret (static_assert_failure
             "Operation print_to cannot be performed on infinite stream.")
  | Finite =>
      let gen := copy_ctor (generator_ s) in
      let os := ostream operation_props in
      '(opt, gen') <- call fuel gen ;;
      match opt with
      | Some v =>
          os' <- print_to_loop show fuel (delimiter operation_props)
                   (os ++ show v)%string gen' ;;
          Ret (Returns os')
      | None => Ret (Returns os)
      end
  end.

(** [while (i <= operation_props.n && (opt = gen())) { ++i; }]
    returns the final [i] and [opt], and the generator after the loop. *)
Fixpoint nth_loop (fuel : nat) (n i : N) (opt : option T) (gen : G)
  : run (N * option T * G) :=
  if (i <=? n)%N then
    match fuel with
    | 0 => OutOfFuel
    | S fuel' =>
        '(opt', gen') <- call fuel' gen ;;
        match opt' with
        | Some _ => nth_loop fuel' n (size_t_incr i) opt' gen'
        | None => Ret (i, opt', gen')
        end
    end
  else Ret (i, opt, gen).

Definition pipe_nth (fuel : nat) (s : Stream G) (operation_props : nth)
  : run (outcome T) :=
  let gen := copy_ctor (generator_ s) in
  '(i, opt, _) <- nth_loop fuel (n operation_props) 0%N None gen ;;
  if (i <=? n operation_props)%N then
    Ret (Throws (IllegalStreamOperation
      "Stream doesn't contain enough elements to perform operation 'nth'."))
  else
    match opt with
    | Some v => Ret (Returns v)
    | None => Ret (Throws bad_optional_access)
    end.

(** [while (opt = gen()) { result = accumulator(result, opt.value()); }] *)
Fixpoint reduce_loop {U : Type} (fuel : nat) (accumulator : U -> T -> U)
  (result : U) (gen : G) : run U :=
  match fuel with
  | 0 => OutOfFuel
  | S fuel' =>
      '(opt, gen') <- call fuel' gen ;;
      match opt with
      | Some v => reduce_loop fuel' accumulator (accumulator result v) gen'
      | None => Ret result
      end
  end.

Definition pipe_reduce {U : Type} (fuel : nat) (s : Stream G)
  (operation_props : reduce U T) : run (outcome U) :=
  match tag s with
  | Infinite =>
      Ret (static_assert_failure
             "Operation reduce cannot be performed on infinite stream.")
  | Finite =>
      let gen := copy_ctor (generator_ s) in
      '(opt, gen') <- call fuel gen ;;
      match opt with
      | None =>
          Ret (Throws (IllegalStreamOperation
            "Operation 'reduce' cannot be performed on empty stream."))
      | Some v =>
          result <- reduce_loop fuel (accumulator operation_props)
                      (identity operation_props v) gen' ;;
          Ret (Returns result)
      end
  end.

(** [while (opt = gen()) { vec.push_back(opt.value()); }] *)
Fixpoint to_vector_loop (fuel : nat) (vec : list T) (gen : G) : run (list T) :=
  match fuel with
  | 0 => OutOfFuel
  | S fuel' =>
      '(opt, gen') <- call fuel' gen ;;
      match opt with
      | Some v => to_vector_loop fuel' (vec ++ [v]) gen'
      | None => Ret vec
      end
  end.

Definition pipe_to_vector (fuel : nat) (s : Stream G) (unused : to_vector)
  : run (outcome (list T)) :=
  match tag s with
  | Infinite =>
      Ret (static_assert_failure
             "Operation to_vector cannot be performed on infinite stream.")
  | Finite =>
      let gen := copy_ctor (generator_ s) in
      vec <- to_vector_loop fuel [] gen ;;
      Ret (Returns vec)
  end.

(** [while (opt = gen()) { stream_sum += opt.value(); }];
    [plus] is [operator+=] of [value_type]. *)
Fixpoint sum_loop (plus : T -> T -> T) (fuel : nat) (stream_sum : T) (gen : G)
  : run T :=
  match fuel with
  | 0 => OutOfFuel
  | S fuel' =>
      '(opt, gen') <- call fuel' gen ;;
      match opt with
      | Some v => sum_loop plus fuel' (plus stream_sum v) gen'
      | None => Ret stream_sum
      end
  end.

Definition pipe_sum (plus : T -> T -> T) (fuel : nat) (s : Stream G) (unused : sum)
  : run (outcome T) :=
  match tag s with
  | Infinite =>
      Ret (static_assert_failure
             "Operation sum cannot be performed on infinite stream.")
  | Finite =>
      let gen := copy_ctor (generator_ s) in
      '(opt, gen') <- call fuel gen ;;
      match opt with
      | None =>
          Ret (Throws (IllegalStreamOperation
            "Operation 'sum' cannot be performed on empty stream."))
      | Some v =>
          stream_sum <- sum_loop plus fuel v gen' ;;
          Ret (Returns stream_sum)
      end
  end.

(** **** Combinators *)

Definition pipe_skip (s : Stream G) (operation_props : skip)
  : Stream (SkipGenerator.t G) :=
  Stream_private
    (SkipGenerator.ctor (generator_ s) (skip_amount operation_props)) (tag s).

Definition pipe_get (s : Stream G) (operation_props : get)
  : Stream (GetGenerator.t G) :=
  Stream_private
    (GetGenerator.ctor (generator_ s) (get_amount operation_props)) Finite.

Definition pipe_filter (s : Stream G) (operation_props : filter T)
  : Stream (FilterGenerator.t G T) :=
  Stream_private
    (FilterGenerator.ctor (generator_ s) (predicate operation_props)) (tag s).

Definition pipe_group (s : Stream G) (operation_props : group)
  : Stream (GroupGenerator.t G) :=
  Stream_private
    (GroupGenerator.ctor (generator_ s) (group_size operation_props)) (tag s).

Definition pipe_map {U : Type} (s : Stream G) (operation_props : map T U)
  : Stream (MapGenerator.t G T U) :=
  Stream_private
    (MapGenerator.ctor (generator_ s) (transform operation_props)) (tag s).

End Members.
End cppstream.

Import cppstream.

(** ** What a generator produces

    These predicates describe a generator by the sequence of its pulls. *)
Section Behaviour.
Context {G T : Type} `{Generator G T}.

(** One call of [operator()] on [g] returns [opt] and leaves [g']. *)
Definition pulls (g : G) (opt : option T) (g' : G) : Prop :=
  eventually (fun fuel => call fuel g) (opt, g').

(** Successive pulls from [g] return the values of [l] and leave [g']. *)
Fixpoint Yields (g : G) (l : list T) (g' : G) : Prop :=
  match l with
  | [] => g' = g
  | v :: l' => exists g1, pulls g (Some v) g1 /\ Yields g1 l' g'
  end.

(** The next [k] pulls all return [std::nullopt]. *)
Fixpoint stops (k : nat) (g : G) : Prop :=
  match k with
  | 0 => True
  | S k' => exists g', pulls g None g' /\ stops k' g'
  end.

(** Every later pull returns [std::nullopt]. *)
Definition Exhausted (g : G) : Prop := forall k, stops k g.

(** [g] returns the values of [l] and then [std::nullopt] once. *)
Definition Drains (g : G) (l : list T) : Prop :=
  exists g' g'', Yields g l g' /\ pulls g' None g''.

(** [g] is the finite sequence [l]: it returns the values of [l] and
    [std::nullopt] ever after. *)
Definition Produces (g : G) (l : list T) : Prop :=
  exists g', Yields g l g' /\ Exhausted g'.

(** What a terminal operation sees of a stream: the sequence produced by a
    copy of the stored generator. *)
Definition StreamProduces (s : Stream G) (l : list T) : Prop :=
  Produces (copy_ctor (generator_ s)) l.

Definition StreamDrains (s : Stream G) (l : list T) : Prop :=
  Drains (copy_ctor (generator_ s)) l.

(** The copy and move constructors agree: a moved generator copies like
    its source, and a copy copies like its source. *)
Class Relocatable : Prop := {
  copy_move : forall g : G, copy_ctor (move_ctor g) = copy_ctor g;
  copy_copy : forall g : G, copy_ctor (copy_ctor g) = copy_ctor g
}.

End Behaviour.

Arguments Relocatable G {T _}.

(** The first [k] values a value generator returns, in order. *)
Fixpoint values_from {St T : Type} (invoke : St -> T * St) (st : St) (k : nat)
  : list T :=
  match k with
  | 0 => []
  | S k' => let (v, st') := invoke st in v :: values_from invoke st' k'
  end.

Definition values {St T : Type} (vg : ValueGenerator St T) (k : nat) : list T :=
  values_from (invoke vg) (captured vg) k.

(** [ceil(n / g)]. *)
Definition ceil_div (n g : nat) : nat := (n + g - 1) / g.

(** The last [m] elements of [l]. *)
Definition lastn {T : Type} (m : nat) (l : list T) : list T :=
  skipn (length l - m) l.

(** [l] cut into consecutive batches of [g] elements, the last one holding
    what is left.  Each batch of a non-empty list takes at least one
    element when [g >= 1], so [length l] rounds are enough. *)
Fixpoint chunks_upto {T : Type} (rounds g : nat) (l : list T) : list (list T) :=
  match rounds with
  | 0 => []
  | S rounds' =>
      match l with
      | [] => []
      | _ :: _ => firstn g l :: chunks_upto rounds' g (skipn g l)
      end
  end.

Definition chunks {T : Type} (g : nat) (l : list T) : list (list T) :=
  chunks_upto (length l) g l.

(** The streams of the test suite. *)
Definition one_to_five : list Z := [1; 2; 3; 4; 5]%Z.

Definition counter (start : Z) : ValueGenerator Z Z :=
  {| invoke := fun st => (st, (st + 1)%Z); captured := start |}.

(** The state a value generator has captured after [k] invocations, and
    the value of invocation [k + 1]. *)
Fixpoint state_after {St T : Type} (invoke : St -> T * St) (st : St) (k : nat)
  : St :=
  match k with
  | 0 => st
  | S k' => state_after invoke (snd (invoke st)) k'
  end.

Definition value_at {St T : Type} (vg : ValueGenerator St T) (k : nat) : T :=
  fst (invoke vg (state_after (invoke vg) (captured vg) k)).

(** [operator<<] of [int]: the decimal digits. *)
Definition show_Z (z : Z) : string := NilZero.string_of_int (Z.to_int z).

(** The first [k] batches of [g] values each that a value generator
    returns. *)
Fixpoint batches_from {St T : Type} (invoke : St -> T * St) (st : St) (g k : nat)
  : list (list T) :=
  match k with
  | 0 => []
  | S k' =>
      values_from invoke st g
        :: batches_from invoke (state_after invoke st g) g k'
  end.

Definition batches {St T : Type} (vg : ValueGenerator St T) (g k : nat)
  : list (list T) :=
  batches_from (invoke vg) (captured vg) g k.

(** [items] written one after the other with [delim] in between. *)
Fixpoint join_tail (delim : string) (items : list string) : string :=
  match items with
  | [] => ""%string
  | item :: rest => (delim ++ item ++ join_tail delim rest)%string
  end.

Definition join (delim : string) (items : list string) : string :=
  match items with
  | [] => ""%string
  | item :: rest => (item ++ join_tail delim rest)%string
  end.

(** The iterators of a [ContainerGenerator] are seated on its own
    container: [cbegin() <= current_ <= end_ = cend()]. *)
Definition ContainerGenerator_seated {T : Type} (g : ContainerGenerator.t T) : Prop :=
  ContainerGenerator.current_ g <= length (ContainerGenerator.container_ g) /\
  ContainerGenerator.end_ g = length (ContainerGenerator.container_ g).

(** * Properties *)

(** ** Runs *)

Lemma eventually_det {A : Type} (m : nat -> run A) (a b : A) :
  eventually m a -> eventually m b -> a = b.
Proof.
  intros [fa Ha] [fb Hb].
  specialize (Ha (Nat.max fa fb) (Nat.le_max_l _ _)).
  specialize (Hb (Nat.max fa fb) (Nat.le_max_r _ _)).
  congruence.
Qed.

Lemma eventually_not_diverges {A : Type} (m : nat -> run A) (a : A) :
  eventually m a -> ~ diverges m.
Proof.
  intros [f0 Hf] Hd. specialize (Hf f0 (le_n _)). rewrite Hd in Hf. discriminate.
Qed.

Lemma size_t_incr_small (i : N) : (i < SIZE_MAX)%N -> size_t_incr i = (i + 1)%N.
Proof.
  unfold size_t_incr, SIZE_MAX, SIZE_WIDTH. intros Hi.
  apply N.mod_small. lia.
Qed.

Lemma size_t_incr_max : size_t_incr SIZE_MAX = 0%N.
Proof. reflexivity. Qed.

(** ** Sequences of pulls *)
Section BehaviourFacts.
Context {G T : Type} `{Generator G T}.

Lemma pulls_det (g : G) (o1 o2 : option T) (g1 g2 : G) :
  pulls g o1 g1 -> pulls g o2 g2 -> o1 = o2 /\ g1 = g2.
Proof.
  intros H1 H2. pose proof (eventually_det H1 H2) as E.
  inversion E. split; reflexivity.
Qed.

Lemma Exhausted_inv (g : G) :
  Exhausted g -> exists g', pulls g None g' /\ Exhausted g'.
Proof.
  intros Hex. destruct (Hex 1) as (g' & Hp & _).
  exists g'. split; [exact Hp|].
  intros k. destruct (Hex (S k)) as (g'' & Hp' & Hk).
  destruct (pulls_det Hp Hp') as [_ ->]. exact Hk.
Qed.

Lemma Exhausted_intro (P : G -> Prop) :
  (forall g, P g -> exists g', pulls g None g' /\ P g') ->
  forall g, P g -> Exhausted g.
Proof.
  intros Hstep g Hg k. revert g Hg.
  induction k as [|k IH]; intros g Hg; simpl; [exact I|].
  destruct (Hstep g Hg) as (g' & Hp & Hg').
  exists g'. split; [exact Hp | apply IH; exact Hg'].
Qed.

Lemma Produces_nil (g : G) : Produces g [] <-> Exhausted g.
Proof.
  split.
  - intros (g' & Hy & Hex). simpl in Hy. subst g'. exact Hex.
  - intros Hex. exists g. split; [reflexivity | exact Hex].
Qed.

Lemma Produces_cons (g : G) (v : T) (l : list T) :
  Produces g (v :: l) <-> exists g1, pulls g (Some v) g1 /\ Produces g1 l.
Proof.
  split.
  - intros (g' & (g1 & Hp & Hy) & Hex). exists g1. split; [exact Hp|].
    exists g'. split; assumption.
  - intros (g1 & Hp & g' & Hy & Hex). exists g'. split; [|exact Hex].
    exists g1. split; assumption.
Qed.

Lemma Produces_Drains (g : G) (l : list T) : Produces g l -> Drains g l.
Proof.
  intros (g' & Hy & Hex). destruct (Exhausted_inv Hex) as (g'' & Hp & _).
  exists g', g''. split; assumption.
Qed.

Lemma Yields_app (g g1 g2 : G) (l1 l2 : list T) :
  Yields g l1 g1 -> Yields g1 l2 g2 -> Yields g (l1 ++ l2) g2.
Proof.
  revert g. induction l1 as [|v l1 IH]; intros g H1 H2; simpl in *.
  - subst g1. exact H2.
  - destruct H1 as (g' & Hp & Hy). exists g'. split; [exact Hp|].
    apply IH; assumption.
Qed.

(** The sequence a generator produces is unique. *)
Lemma Produces_det (g : G) (l1 l2 : list T) :
  Produces g l1 -> Produces g l2 -> l1 = l2.
Proof.
  revert g l2. induction l1 as [|v l1 IH]; intros g [|w l2] H1 H2.
  - reflexivity.
  - apply Produces_nil in H1. apply Produces_cons in H2.
    destruct H2 as (g1 & Hp & _).
    destruct (Exhausted_inv H1) as (g' & Hp' & _).
    destruct (pulls_det Hp Hp') as [E _]. discriminate.
  - apply Produces_nil in H2. apply Produces_cons in H1.
    destruct H1 as (g1 & Hp & _).
    destruct (Exhausted_inv H2) as (g' & Hp' & _).
    destruct (pulls_det Hp Hp') as [E _]. discriminate.
  - apply Produces_cons in H1. apply Produces_cons in H2.
    destruct H1 as (g1 & Hp1 & H1). destruct H2 as (g2 & Hp2 & H2).
    destruct (pulls_det Hp1 Hp2) as [E ->]. inversion E; subst.
    f_equal. eapply IH; eassumption.
Qed.

End BehaviourFacts.

(** ** Terminal loops *)

Ltac fuel_step f0 :=
  exists (S f0); intros [|?f] ?Hf; [lia|]; simpl.

Section TerminalLoops.
Context {G T : Type} `{Generator G T}.

Lemma to_vector_loop_Yields (l : list T) :
  forall (g g' g'' : G) (vec : list T),
    Yields g l g' -> pulls g' None g'' ->
    eventually (fun f => to_vector_loop f vec g) (vec ++ l).
Proof.
  induction l as [|v l IH]; intros g g' g'' vec Hy Hend; simpl in Hy.
  - subst g'. destruct Hend as [f0 Hc]. fuel_step f0.
    rewrite Hc by lia. simpl. now rewrite app_nil_r.
  - destruct Hy as (g1 & [f0 Hc] & Hy).
    destruct (IH g1 g' g'' (vec ++ [v]) Hy Hend) as [f1 Hl].
    fuel_step (Nat.max f0 f1).
    rewrite Hc by lia. simpl. rewrite Hl by lia.
    now rewrite <- app_assoc.
Qed.

Lemma reduce_loop_Yields {U : Type} (acc : U -> T -> U) (l : list T) :
  forall (g g' g'' : G) (result : U),
    Yields g l g' -> pulls g' None g'' ->
    eventually (fun f => reduce_loop f acc result g) (fold_left acc l result).
Proof.
  induction l as [|v l IH]; intros g g' g'' result Hy Hend; simpl in Hy.
  - subst g'. destruct Hend as [f0 Hc]. fuel_step f0.
    now rewrite Hc by lia.
  - destruct Hy as (g1 & [f0 Hc] & Hy).
    destruct (IH g1 g' g'' (acc result v) Hy Hend) as [f1 Hl].
    fuel_step (Nat.max f0 f1).
    rewrite Hc by lia. simpl. now rewrite Hl by lia.
Qed.

Lemma sum_loop_Yields (plus : T -> T -> T) (l : list T) :
  forall (g g' g'' : G) (acc : T),
    Yields g l g' -> pulls g' None g'' ->
    eventually (fun f => sum_loop plus f acc g) (fold_left plus l acc).
Proof.
  induction l as [|v l IH]; intros g g' g'' acc Hy Hend; simpl in Hy.
  - subst g'. destruct Hend as [f0 Hc]. fuel_step f0.
    now rewrite Hc by lia.
  - destruct Hy as (g1 & [f0 Hc] & Hy).
    destruct (IH g1 g' g'' (plus acc v) Hy Hend) as [f1 Hl].
    fuel_step (Nat.max f0 f1).
    rewrite Hc by lia. simpl. now rewrite Hl by lia.
Qed.

(** [to_vector] on a finite stream returns what a copy of its generator
    yields. *)
Lemma pipe_to_vector_Drains (s : Stream G) (l : list T) :
  tag s = Finite -> StreamDrains s l ->
  eventually (fun f => pipe_to_vector f s to_vector_ctor) (Returns l).
Proof.
  intros Htag (g' & g'' & Hy & Hend). unfold pipe_to_vector. rewrite Htag.
  destruct (to_vector_loop_Yields l _ [] Hy Hend) as [f0 Hl].
  exists f0. intros f Hf. now rewrite Hl by lia.
Qed.

Lemma pipe_to_vector_Produces (s : Stream G) (l : list T) :
  tag s = Finite -> StreamProduces s l ->
  eventually (fun f => pipe_to_vector f s to_vector_ctor) (Returns l).
Proof.
  intros Htag Hp. apply pipe_to_vector_Drains; [exact Htag|].
  apply Produces_Drains. exact Hp.
Qed.

Lemma nth_loop_reaches (n : N) (l : list T) :
  (n < SIZE_MAX)%N ->
  forall (g g' : G) (i : N) (opt : option T) (v : T),
    Yields g (l ++ [v]) g' -> (i + N.of_nat (length l) = n)%N ->
    eventually (fun f => nth_loop f n i opt g) ((n + 1)%N, Some v, g').
Proof.
  intros Hn. induction l as [|w l IH]; intros g g' i opt v Hy Hlen; simpl in *.
  - destruct Hy as (g1 & [f0 Hc] & ->). fuel_step f0.
    assert (i = n) as -> by lia.
    rewrite (proj2 (N.leb_le n n)) by lia.
    rewrite Hc by lia. simpl.
    rewrite size_t_incr_small by exact Hn.
    destruct f; simpl; rewrite (proj2 (N.leb_gt (n + 1) n)) by lia; reflexivity.
  - destruct Hy as (g1 & [f0 Hc] & Hy).
    assert (Hi : (i < n)%N) by lia.
    destruct (IH g1 g' (i + 1)%N (Some w) v Hy ltac:(lia)) as [f1 Hl].
    fuel_step (Nat.max f0 f1).
    rewrite (proj2 (N.leb_le i n)) by lia.
    rewrite Hc by lia. simpl.
    rewrite size_t_incr_small by lia. apply Hl. lia.
Qed.

Lemma nth_loop_runs_dry (n : N) (l : list T) :
  (n <= SIZE_MAX)%N ->
  forall (g g' g'' : G) (i : N) (opt : option T),
    Yields g l g' -> pulls g' None g'' -> (i + N.of_nat (length l) <= n)%N ->
    eventually (fun f => nth_loop f n i opt g)
      ((i + N.of_nat (length l))%N, None, g'').
Proof.
  intros Hn. induction l as [|w l IH]; intros g g' g'' i opt Hy Hend Hlen;
    simpl in Hy.
  - subst g'. destruct Hend as [f0 Hc]. fuel_step f0.
    simpl in Hlen. rewrite (proj2 (N.leb_le i n)) by lia.
    rewrite Hc by lia. simpl. now rewrite N.add_0_r.
  - destruct Hy as (g1 & [f0 Hc] & Hy).
    simpl length in *. rewrite Nat2N.inj_succ in *.
    destruct (IH g1 g' g'' (i + 1)%N (Some w) Hy Hend ltac:(lia)) as [f1 Hl].
    fuel_step (Nat.max f0 f1).
    rewrite (proj2 (N.leb_le i n)) by lia.
    rewrite Hc by lia. simpl.
    rewrite size_t_incr_small by lia. rewrite Hl by lia.
    do 2 f_equal. f_equal. lia.
Qed.

End TerminalLoops.

(** ** Copying and moving generators *)

#[global] Instance InfiniteGenerator_Relocatable {St T : Type} :
  Relocatable (InfiniteGenerator.t St T).
Proof. split; intros [vg]; reflexivity. Qed.

#[global] Instance ContainerGenerator_Relocatable {T : Type} :
  Relocatable (ContainerGenerator.t T).
Proof. split; intros [c i e]; reflexivity. Qed.

Section RelocatableCombinators.
Context {G T : Type} `{Generator G T} {R : Relocatable G}.

#[global] Instance SkipGenerator_Relocatable : Relocatable (SkipGenerator.t G).
Proof.
  split; intros [p a s]; cbn; unfold SkipGenerator.copy; cbn; f_equal.
  - apply copy_move.
  - apply copy_copy.
Qed.

#[global] Instance GetGenerator_Relocatable : Relocatable (GetGenerator.t G).
Proof.
  split; intros [p a s]; cbn; unfold GetGenerator.copy; cbn; f_equal.
  - apply copy_move.
  - apply copy_copy.
Qed.

#[global] Instance FilterGenerator_Relocatable : Relocatable (FilterGenerator.t G T).
Proof.
  split; intros [p q]; cbn; unfold FilterGenerator.copy; cbn; f_equal.
  - apply copy_move.
  - apply copy_copy.
Qed.

#[global] Instance GroupGenerator_Relocatable : Relocatable (GroupGenerator.t G).
Proof.
  split; intros [p a]; cbn; unfold GroupGenerator.copy; cbn; f_equal.
  - apply copy_move.
  - apply copy_copy.
Qed.

#[global] Instance MapGenerator_Relocatable {U : Type} :
  Relocatable (MapGenerator.t G T U).
Proof.
  split; intros [p q]; cbn; unfold MapGenerator.copy; cbn; f_equal.
  - apply copy_move.
  - apply copy_copy.
Qed.

End RelocatableCombinators.

(** The copy constructor of [ContainerGenerator] rewinds the cursor, that
    of [PackGenerator] keeps it. *)
Lemma ContainerGenerator_copy_rewinds {T : Type} (g : ContainerGenerator.t T) :
  copy_ctor g = ContainerGenerator.ctor (ContainerGenerator.container_ g).
Proof. reflexivity. Qed.

Lemma PackGenerator_copy_keeps_cursor {T : Type} (g : PackGenerator.t T) :
  copy_ctor g = g.
Proof. destruct g; reflexivity. Qed.

(** ** [ContainerGenerator] produces its container *)

Lemma skipn_nth_error {T : Type} (c : list T) :
  forall (i : nat) (v : T),
    nth_error c i = Some v -> skipn i c = v :: skipn (S i) c.
Proof.
  induction c as [|x c IH]; intros [|i] v Hnth; simpl in *; try discriminate.
  - now inversion Hnth.
  - now apply IH.
Qed.

Lemma ContainerGenerator_at_end {T : Type} (c : list T) :
  Exhausted {| ContainerGenerator.container_ := c;
               ContainerGenerator.current_ := length c;
               ContainerGenerator.end_ := length c |}.
Proof.
  apply Exhausted_intro with
    (P := fun g => g = {| ContainerGenerator.container_ := c;
                          ContainerGenerator.current_ := length c;
                          ContainerGenerator.end_ := length c |});
    [|reflexivity].
  intros g ->. eexists. split; [|reflexivity].
  exists 0. intros f _. cbn. unfold ContainerGenerator.operator_call. cbn.
  now rewrite Nat.eqb_refl.
Qed.

Lemma ContainerGenerator_Produces_from {T : Type} (c : list T) :
  forall (k i : nat), i + k = length c ->
    Produces {| ContainerGenerator.container_ := c;
                ContainerGenerator.current_ := i;
                ContainerGenerator.end_ := length c |} (skipn i c).
Proof.
  induction k as [|k IH]; intros i Hi.
  - assert (i = length c) as -> by lia.
    rewrite skipn_all. apply Produces_nil. apply ContainerGenerator_at_end.
  - destruct (nth_error c i) as [v|] eqn:Hnth.
    2:{ apply nth_error_None in Hnth. lia. }
    rewrite (skipn_nth_error c i Hnth). apply Produces_cons.
    eexists. split; [|apply (IH (S i)); lia].
    exists 0. intros f _. cbn. unfold ContainerGenerator.operator_call. cbn.
    rewrite (proj2 (Nat.eqb_neq i (length c))) by lia.
    now rewrite Hnth.
Qed.

Lemma ContainerGenerator_Produces {T : Type} (c : list T) :
  Produces (ContainerGenerator.ctor c) c.
Proof. apply (ContainerGenerator_Produces_from c (length c) 0). reflexivity. Qed.

(** A stream built from a container, an iterator range or an initializer
    list is the sequence of its elements. *)
Lemma Stream_container_Produces {T : Type} (c : list T) :
  StreamProduces (Stream_container c) c.
Proof. apply ContainerGenerator_Produces. Qed.

Lemma Stream_range_Produces {T : Type} (c : list T) :
  StreamProduces (Stream_range c) c.
Proof. apply ContainerGenerator_Produces. Qed.

Lemma Stream_initializer_list_Produces {T : Type} (c : list T) :
  StreamProduces (Stream_initializer_list c) c.
Proof. apply ContainerGenerator_Produces. Qed.

(** ** [GetGenerator] *)
Section GetFacts.
Context {G T : Type} `{Generator G T}.

Lemma Exhausted_after (g g' : G) : pulls g None g' -> Exhausted g' -> Exhausted g.
Proof.
  intros Hp Hex [|k]; simpl; [exact I|].
  exists g'. split; [exact Hp | apply Hex].
Qed.

(** Once [amount_got_] has reached [amount_to_get_] the generator returns
    [std::nullopt] and does not change. *)
Lemma GetGenerator_call_done (fuel : nat) (this : GetGenerator.t G) :
  (GetGenerator.amount_to_get_ this <= GetGenerator.amount_got_ this)%N ->
  call fuel this = Ret (None, this).
Proof.
  intros Hle. cbn. unfold GetGenerator.operator_call.
  now rewrite (proj2 (N.leb_le _ _) Hle).
Qed.

(** Otherwise it counts the pull and hands it to the parent, whatever the
    parent returns. *)
Lemma GetGenerator_call_delegates (fuel : nat) (this : GetGenerator.t G) :
  (GetGenerator.amount_got_ this < GetGenerator.amount_to_get_ this)%N ->
  call fuel this =
    '(opt, parent') <- call fuel (GetGenerator.parent_gen_ this) ;;
    Ret (opt, {| GetGenerator.parent_gen_ := parent';
                 GetGenerator.amount_to_get_ := GetGenerator.amount_to_get_ this;
                 GetGenerator.amount_got_ := size_t_incr (GetGenerator.amount_got_ this) |}).
Proof.
  intros Hlt. cbn. unfold GetGenerator.operator_call.
  now rewrite (proj2 (N.leb_gt _ _) Hlt).
Qed.

Lemma GetGenerator_done (p : G) (a got : N) :
  (a <= got)%N ->
  Exhausted {| GetGenerator.parent_gen_ := p; GetGenerator.amount_to_get_ := a; GetGenerator.amount_got_ := got |}.
Proof.
  intros Hle.
  apply Exhausted_intro with
    (P := fun g : GetGenerator.t G => (GetGenerator.amount_to_get_ g <= GetGenerator.amount_got_ g)%N);
    [|exact Hle].
  intros g Hg. exists g. split; [|exact Hg].
  exists 0. intros f _. now apply GetGenerator_call_done.
Qed.

Lemma GetGenerator_pulls (p p' : G) (a got : N) (opt : option T) :
  (got < a)%N -> (a <= SIZE_MAX)%N -> pulls p opt p' ->
  pulls {| GetGenerator.parent_gen_ := p; GetGenerator.amount_to_get_ := a; GetGenerator.amount_got_ := got |}
        opt
        {| GetGenerator.parent_gen_ := p'; GetGenerator.amount_to_get_ := a;
           GetGenerator.amount_got_ := (got + 1)%N |}.
Proof.
  intros Hlt Ha [f0 Hc]. exists f0. intros f Hf.
  rewrite GetGenerator_call_delegates by exact Hlt. cbn.
  rewrite Hc by lia. cbn.
  rewrite size_t_incr_small by lia. reflexivity.
Qed.

Lemma GetGenerator_Exhausted (p : G) (a got : N) :
  Exhausted p ->
  Exhausted {| GetGenerator.parent_gen_ := p; GetGenerator.amount_to_get_ := a; GetGenerator.amount_got_ := got |}.
Proof.
  intros Hex.
  apply Exhausted_intro with
    (P := fun g : GetGenerator.t G => Exhausted (GetGenerator.parent_gen_ g));
    [|exact Hex].
  intros [q b k] Hq. cbn in Hq.
  destruct (N.leb_spec b k) as [Hle|Hlt].
  - exists {| GetGenerator.parent_gen_ := q; GetGenerator.amount_to_get_ := b;
              GetGenerator.amount_got_ := k |}.
    split; [|exact Hq].
    exists 0. intros f _. now apply GetGenerator_call_done.
  - destruct (Exhausted_inv Hq) as (q' & [f0 Hc] & Hq').
    exists {| GetGenerator.parent_gen_ := q'; GetGenerator.amount_to_get_ := b;
              GetGenerator.amount_got_ := size_t_incr k |}.
    split; [|exact Hq'].
    exists f0. intros f Hf.
    rewrite GetGenerator_call_delegates by exact Hlt. cbn.
    now rewrite Hc by lia.
Qed.

Lemma GetGenerator_Produces (a : N) (l : list T) :
  (a <= SIZE_MAX)%N ->
  forall (p : G) (got : N),
    (got <= a)%N -> Produces p l ->
    Produces {| GetGenerator.parent_gen_ := p; GetGenerator.amount_to_get_ := a; GetGenerator.amount_got_ := got |}
             (firstn (N.to_nat (a - got)) l).
Proof.
  intros Ha. induction l as [|v l IH]; intros p got Hgot Hp.
  - rewrite firstn_nil. apply Produces_nil. apply GetGenerator_Exhausted.
    now apply Produces_nil.
  - destruct (N.eq_dec got a) as [->|Hne].
    + rewrite N.sub_diag. cbn. apply Produces_nil. apply GetGenerator_done. lia.
    + replace (N.to_nat (a - got)) with (S (N.to_nat (a - (got + 1)))) by lia.
      cbn [firstn]. apply Produces_cons in Hp. destruct Hp as (p1 & Hpull & Hp1).
      apply Produces_cons. eexists. split.
      * apply GetGenerator_pulls; [lia | exact Ha | exact Hpull].
      * apply IH; [lia | exact Hp1].
Qed.

End GetFacts.

(** ** [SkipGenerator] *)
Section SkipFacts.
Context {G T : Type} `{Generator G T}.

Local Notation "'skip_state' p a s" :=
  {| SkipGenerator.parent_gen_ := p;
     SkipGenerator.amount_to_skip_ := a;
     SkipGenerator.skipped_ := s |}
  (at level 10, p at level 9, a at level 9, s at level 9).

(** After the skip phase every pull goes straight to the parent. *)
Lemma SkipGenerator_call_skipped (fuel : nat) (this : SkipGenerator.t G) :
  SkipGenerator.skipped_ this = true ->
  call fuel this =
    '(opt, parent') <- call fuel (SkipGenerator.parent_gen_ this) ;;
    Ret (opt, skip_state parent' (SkipGenerator.amount_to_skip_ this) true).
Proof.
  intros Hs. cbn. unfold SkipGenerator.operator_call. rewrite Hs. reflexivity.
Qed.

(** Every call that returns leaves [skipped_] set. *)
Lemma SkipGenerator_call_marks (fuel : nat) (this this' : SkipGenerator.t G)
  (opt : option T) :
  call fuel this = Ret (opt, this') -> SkipGenerator.skipped_ this' = true.
Proof.
  cbn. unfold SkipGenerator.operator_call.
  destruct (SkipGenerator.skipped_ this) eqn:Hs; cbn.
  - destruct (call fuel (SkipGenerator.parent_gen_ this)) as [[o p]| |]; cbn;
      intros E; inversion E; reflexivity.
  - destruct (SkipGenerator.skip_loop fuel _ 0 _) as [[i p]| |]; cbn;
      try discriminate.
    destruct (i <? _)%N.
    + intros E; inversion E; reflexivity.
    + destruct (call fuel p) as [[o p']| |]; cbn;
        intros E; inversion E; reflexivity.
Qed.

Lemma skip_loop_exit (fuel : nat) (a i : N) (p : G) :
  (a <= i)%N -> SkipGenerator.skip_loop fuel a i p = Ret (i, p).
Proof.
  intros Hle. destruct fuel; simpl;
    now rewrite (proj2 (N.ltb_ge i a) Hle).
Qed.

Lemma SkipGenerator_skipped_pulls (p p' : G) (a : N) (opt : option T) :
  pulls p opt p' -> pulls (skip_state p a true) opt (skip_state p' a true).
Proof.
  intros [f0 Hc]. exists f0. intros f Hf.
  rewrite SkipGenerator_call_skipped by reflexivity. cbn.
  now rewrite Hc by lia.
Qed.

Lemma SkipGenerator_skipped_Exhausted (p : G) (a : N) :
  Exhausted p -> Exhausted (skip_state p a true).
Proof.
  intros Hex.
  apply Exhausted_intro with
    (P := fun g : SkipGenerator.t G =>
            SkipGenerator.skipped_ g = true /\
            Exhausted (SkipGenerator.parent_gen_ g));
    [|split; [reflexivity | exact Hex]].
  intros [q b s] [Hs Hq]. cbn in Hs, Hq. subst s.
  destruct (Exhausted_inv Hq) as (q' & Hpull & Hq').
  exists (skip_state q' b true). split.
  - now apply SkipGenerator_skipped_pulls.
  - split; [reflexivity | exact Hq'].
Qed.

Lemma SkipGenerator_skipped_Produces (a : N) (l : list T) :
  forall p : G, Produces p l -> Produces (skip_state p a true) l.
Proof.
  induction l as [|v l IH]; intros p Hp.
  - apply Produces_nil. apply SkipGenerator_skipped_Exhausted.
    now apply Produces_nil.
  - apply Produces_cons in Hp. destruct Hp as (p1 & Hpull & Hp1).
    apply Produces_cons. exists (skip_state p1 a true). split.
    + now apply SkipGenerator_skipped_pulls.
    + now apply IH.
Qed.

(** The skip loop discards [min (a - i) (length l)] values. *)
Lemma skip_loop_spec (a : N) (l : list T) :
  (a <= SIZE_MAX)%N ->
  forall (p : G) (i : N),
    (i <= a)%N -> Produces p l ->
    exists p',
      eventually (fun f => SkipGenerator.skip_loop f a i p)
        ((i + N.min (a - i) (N.of_nat (length l)))%N, p') /\
      Produces p' (skipn (N.to_nat (a - i)) l).
Proof.
  intros Ha. induction l as [|v l IH]; intros p i Hi Hp.
  - rewrite skipn_nil. cbn [length N.of_nat]. rewrite N.min_0_r, N.add_0_r.
    destruct (N.ltb_spec i a) as [Hlt|Hge].
    + apply Produces_nil in Hp.
      destruct (Exhausted_inv Hp) as (p' & [f0 Hc] & Hp').
      exists p'. split; [|now apply Produces_nil].
      fuel_step f0. rewrite (proj2 (N.ltb_lt i a) Hlt).
      now rewrite Hc by lia.
    + exists p. split; [|exact Hp].
      exists 0. intros f _. now apply skip_loop_exit.
  - destruct (N.ltb_spec i a) as [Hlt|Hge].
    + apply Produces_cons in Hp. destruct Hp as (p1 & [f0 Hc] & Hp1).
      destruct (IH p1 (i + 1)%N ltac:(lia) Hp1) as (p' & [f1 Hl] & Hp').
      exists p'. split.
      * fuel_step (Nat.max f0 f1). rewrite (proj2 (N.ltb_lt i a) Hlt).
        rewrite Hc by lia. cbn. rewrite size_t_incr_small by lia.
        rewrite Hl by lia. do 2 f_equal. lia.
      * replace (N.to_nat (a - i)) with (S (N.to_nat (a - (i + 1)))) by lia.
        exact Hp'.
    + exists p. split.
      * exists 0. intros f _. rewrite skip_loop_exit by exact Hge.
        do 2 f_equal. lia.
      * replace (N.to_nat (a - i)) with 0 by lia. exact Hp.
Qed.

Lemma SkipGenerator_first_pull_short (p p' : G) (a i : N) :
  eventually (fun f => SkipGenerator.skip_loop f a 0 p) (i, p') ->
  (i < a)%N ->
  pulls (skip_state p a false) None (skip_state p' a true).
Proof.
  intros [f0 Hl] Hlt. exists f0. intros f Hf.
  cbn. unfold SkipGenerator.operator_call. cbn.
  rewrite Hl by lia. cbn.
  now rewrite (proj2 (N.ltb_lt i a) Hlt).
Qed.

Lemma SkipGenerator_first_pull_full (p p' p'' : G) (a i : N) (opt : option T) :
  eventually (fun f => SkipGenerator.skip_loop f a 0 p) (i, p') ->
  (a <= i)%N -> pulls p' opt p'' ->
  pulls (skip_state p a false) opt (skip_state p'' a true).
Proof.
  intros [f0 Hl] Hge [f1 Hc]. exists (Nat.max f0 f1). intros f Hf.
  cbn. unfold SkipGenerator.operator_call. cbn.
  rewrite Hl by lia. cbn.
  rewrite (proj2 (N.ltb_ge i a) Hge).
  now rewrite Hc by lia.
Qed.

Lemma SkipGenerator_Produces (a : N) (l : list T) (p : G) :
  (a <= SIZE_MAX)%N -> Produces p l ->
  Produces (skip_state p a false) (skipn (N.to_nat a) l).
Proof.
  intros Ha Hp.
  destruct (@skip_loop_spec a l Ha p 0%N ltac:(lia) Hp) as (p' & Hloop & Hp').
  rewrite N.sub_0_r, N.add_0_l in *.
  destruct (N.ltb_spec (N.of_nat (length l)) a) as [Hshort|Hfull].
  - rewrite N.min_r in Hloop by lia.
    rewrite skipn_all2 in * by lia.
    apply Produces_nil. apply Produces_nil in Hp'.
    eapply Exhausted_after.
    + eapply SkipGenerator_first_pull_short; [exact Hloop | exact Hshort].
    + now apply SkipGenerator_skipped_Exhausted.
  - rewrite N.min_l in Hloop by lia.
    destruct (skipn (N.to_nat a) l) as [|v rest].
    + apply Produces_nil. apply Produces_nil in Hp'.
      destruct (Exhausted_inv Hp') as (p'' & Hpull & Hp'').
      eapply Exhausted_after.
      * eapply SkipGenerator_first_pull_full; [exact Hloop | lia | exact Hpull].
      * now apply SkipGenerator_skipped_Exhausted.
    + apply Produces_cons in Hp'. destruct Hp' as (p1 & Hpull & Hp1).
      apply Produces_cons. exists (skip_state p1 a true). split.
      * eapply SkipGenerator_first_pull_full; [exact Hloop | lia | exact Hpull].
      * now apply SkipGenerator_skipped_Produces.
Qed.

End SkipFacts.

(** ** [GroupGenerator] *)
Section GroupFacts.
Context {G T : Type} `{Generator G T}.

Local Notation "'group_state' p a" :=
  {| GroupGenerator.parent_gen_ := p; GroupGenerator.group_size_ := a |}
  (at level 10, p at level 9, a at level 9).

Lemma group_loop_eq (fuel : nat) (gs : N) (group : list T) (i : N) (v : T) (p : G) :
  GroupGenerator.group_loop fuel gs group i v p =
    if (size_t_incr i <? gs)%N then
      match fuel with
      | 0 => OutOfFuel
      | S fuel' =>
          '(opt, p') <- call fuel' p ;;
          match opt with
          | Some v' =>
              GroupGenerator.group_loop fuel' gs (group ++ [v]) (size_t_incr i) v' p'
          | None => Ret (group ++ [v], p')
          end
      end
    else Ret (group ++ [v], p).
Proof. destruct fuel; reflexivity. Qed.

(** The batch loop never returns an empty group. *)
Lemma group_loop_nonempty (fuel : nat) (gs : N) :
  forall (group : list T) (i : N) (v : T) (p p' : G) (out : list T),
    GroupGenerator.group_loop fuel gs group i v p = Ret (out, p') -> out <> [].
Proof.
  induction fuel as [|fuel IH]; intros group i v p p' out;
    rewrite group_loop_eq; destruct (size_t_incr i <? gs)%N; try discriminate.
  - intros E; inversion E; subst. now destruct group.
  - destruct (call fuel p) as [[[v'|] q]| |]; cbn; try discriminate.
    + apply IH.
    + intros E; inversion E; subst. now destruct group.
  - intros E; inversion E; subst. now destruct group.
Qed.

(** A pull of the group generator returns [std::nullopt] exactly when the
    first pull of the batch does. *)
Lemma GroupGenerator_call_nullopt (fuel : nat) (this this' : GroupGenerator.t G) :
  call fuel this = Ret (None, this') <->
  exists p', call fuel (GroupGenerator.parent_gen_ this) = Ret (None, p') /\
             this' = group_state p' (GroupGenerator.group_size_ this).
Proof.
  cbn. unfold GroupGenerator.operator_call.
  destruct (call fuel (GroupGenerator.parent_gen_ this)) as [[[v|] q]| |]; cbn.
  - split.
    + destruct (GroupGenerator.group_loop fuel _ [] 0 v q) as [[grp q']| |];
        cbn; discriminate.
    + intros (p' & E & _). discriminate.
  - split.
    + intros E. inversion E; subst. exists q. split; reflexivity.
    + intros (p' & E & ->). inversion E; subst. reflexivity.
  - split; [discriminate | intros (p' & E & _); discriminate].
  - split; [discriminate | intros (p' & E & _); discriminate].
Qed.

Lemma GroupGenerator_call_nonempty (fuel : nat) (this this' : GroupGenerator.t G)
  (grp : list T) :
  call fuel this = Ret (Some grp, this') -> grp <> [].
Proof.
  cbn. unfold GroupGenerator.operator_call.
  destruct (call fuel (GroupGenerator.parent_gen_ this)) as [[[v|] q]| |]; cbn;
    try discriminate.
  destruct (GroupGenerator.group_loop fuel _ [] 0 v q) as [[out q']| |] eqn:E;
    cbn; try discriminate.
  intros E'. inversion E'; subst. eapply group_loop_nonempty; exact E.
Qed.

(** One batch: the loop appends up to [gs - (i + 1)] further values. *)
Lemma group_loop_spec (gs : N) (l : list T) :
  (gs <= SIZE_MAX)%N ->
  forall (p : G) (group : list T) (i : N) (v : T),
    (i < SIZE_MAX)%N -> Produces p l ->
    exists p',
      eventually (fun f => GroupGenerator.group_loop f gs group i v p)
        (group ++ v :: firstn (N.to_nat (gs - (i + 1))) l, p') /\
      Produces p' (skipn (N.to_nat (gs - (i + 1))) l).
Proof.
  intros Hgs. induction l as [|w l IH]; intros p group i v Hi Hp.
  - rewrite firstn_nil, skipn_nil.
    destruct (N.ltb_spec (i + 1) gs) as [Hlt|Hge].
    + apply Produces_nil in Hp.
      destruct (Exhausted_inv Hp) as (p' & [f0 Hc] & Hp').
      exists p'. split; [|now apply Produces_nil].
      exists (S f0). intros [|f] Hf; [lia|].
      rewrite group_loop_eq, size_t_incr_small by exact Hi.
      rewrite (proj2 (N.ltb_lt _ _) Hlt).
      now rewrite Hc by lia.
    + exists p. split; [|exact Hp].
      exists 0. intros f _.
      rewrite group_loop_eq, size_t_incr_small by exact Hi.
      now rewrite (proj2 (N.ltb_ge _ _) Hge).
  - destruct (N.ltb_spec (i + 1) gs) as [Hlt|Hge].
    + apply Produces_cons in Hp. destruct Hp as (p1 & [f0 Hc] & Hp1).
      destruct (IH p1 (group ++ [v]) (i + 1)%N w ltac:(lia) Hp1)
        as (p' & [f1 Hl] & Hp').
      replace (N.to_nat (gs - (i + 1)))
        with (S (N.to_nat (gs - (i + 1 + 1)))) by lia.
      exists p'. split; [|exact Hp'].
      exists (S (Nat.max f0 f1)). intros [|f] Hf; [lia|].
      rewrite group_loop_eq, size_t_incr_small by exact Hi.
      rewrite (proj2 (N.ltb_lt _ _) Hlt).
      rewrite Hc by lia. cbn [bind]. rewrite Hl by lia.
      cbn [firstn]. now rewrite <- app_assoc.
    + replace (N.to_nat (gs - (i + 1))) with 0 by lia.
      exists p. split; [|exact Hp].
      exists 0. intros f _.
      rewrite group_loop_eq, size_t_incr_small by exact Hi.
      now rewrite (proj2 (N.ltb_ge _ _) Hge).
Qed.

Lemma GroupGenerator_Exhausted (p : G) (gs : N) :
  Exhausted p -> Exhausted (group_state p gs).
Proof.
  intros Hex.
  apply Exhausted_intro with
    (P := fun g : GroupGenerator.t G => Exhausted (GroupGenerator.parent_gen_ g));
    [|exact Hex].
  intros [q b] Hq. cbn in Hq.
  destruct (Exhausted_inv Hq) as (q' & [f0 Hc] & Hq').
  exists (group_state q' b). split; [|exact Hq'].
  exists f0. intros f Hf. apply GroupGenerator_call_nullopt.
  exists q'. split; [now apply Hc | reflexivity].
Qed.

Lemma GroupGenerator_pulls_batch (gs : N) (p : G) (v : T) (l : list T) :
  (gs <= SIZE_MAX)%N -> Produces p (v :: l) ->
  exists p',
    pulls (group_state p gs)
          (Some (v :: firstn (N.to_nat (gs - 1)) l)) (group_state p' gs) /\
    Produces p' (skipn (N.to_nat (gs - 1)) l).
Proof.
  intros Hgs Hp. apply Produces_cons in Hp. destruct Hp as (p1 & [f0 Hc] & Hp1).
  destruct (@group_loop_spec gs l Hgs p1 [] 0%N v ltac:(reflexivity) Hp1)
    as (p' & [f1 Hl] & Hp').
  exists p'. split; [|exact Hp'].
  exists (Nat.max f0 f1). intros f Hf.
  cbn. unfold GroupGenerator.operator_call. cbn.
  rewrite Hc by lia. cbn. now rewrite Hl by lia.
Qed.

Lemma GroupGenerator_Produces (gs : N) :
  (1 <= gs)%N -> (gs <= SIZE_MAX)%N ->
  forall (rounds : nat) (l : list T) (p : G),
    length l <= rounds -> Produces p l ->
    Produces (group_state p gs) (chunks_upto rounds (N.to_nat gs) l).
Proof.
  intros Hpos Hgs. induction rounds as [|rounds IH]; intros l p Hlen Hp.
  - destruct l; [|cbn in Hlen; lia]. cbn. apply Produces_nil.
    apply GroupGenerator_Exhausted. now apply Produces_nil.
  - destruct l as [|v l].
    + cbn. apply Produces_nil. apply GroupGenerator_Exhausted.
      now apply Produces_nil.
    + cbn [chunks_upto].
      replace (N.to_nat gs) with (S (N.to_nat (gs - 1))) by lia.
      cbn [firstn skipn].
      destruct (GroupGenerator_pulls_batch Hgs Hp) as (p' & Hpull & Hp').
      apply Produces_cons. exists (group_state p' gs). split; [exact Hpull|].
      replace (S (N.to_nat (gs - 1))) with (N.to_nat gs) by lia.
      apply IH; [|exact Hp'].
      rewrite length_skipn. cbn in Hlen. lia.
Qed.

End GroupFacts.

(** ** [FilterGenerator] and [MapGenerator] *)
Section FilterMapFacts.
Context {G T : Type} `{Generator G T}.

Local Notation "'filter_state' p q" :=
  {| FilterGenerator.parent_gen_ := p; FilterGenerator.predicate_ := q |}
  (at level 10, p at level 9, q at level 9).

Local Notation "'map_state' p q" :=
  {| MapGenerator.parent_gen_ := p; MapGenerator.transform_ := q |}
  (at level 10, p at level 9, q at level 9).

(** The filter loop stops at the first value that passes, or at the end. *)
Lemma filter_loop_spec (pred : T -> bool) (l : list T) :
  forall p : G,
    Produces p l ->
    match List.filter pred l with
    | [] =>
        exists p',
          eventually (fun f => FilterGenerator.filter_loop f pred p) (None, p') /\
          Exhausted p'
    | v :: rest =>
        exists p' l',
          eventually (fun f => FilterGenerator.filter_loop f pred p) (Some v, p') /\
          Produces p' l' /\ List.filter pred l' = rest
    end.
Proof.
  induction l as [|w l IH]; intros p Hp.
  - cbn. apply Produces_nil in Hp.
    destruct (Exhausted_inv Hp) as (p' & [f0 Hc] & Hp').
    exists p'. split; [|exact Hp'].
    fuel_step f0. now rewrite Hc by lia.
  - apply Produces_cons in Hp. destruct Hp as (p1 & [f0 Hc] & Hp1).
    cbn [List.filter]. destruct (pred w) eqn:Hw.
    + exists p1, l. split; [|split; [exact Hp1 | reflexivity]].
      fuel_step f0. rewrite Hc by lia. cbn. now rewrite Hw.
    + specialize (IH p1 Hp1).
      destruct (List.filter pred l) as [|v rest].
      * destruct IH as (p' & [f1 Hl] & Hp'). exists p'. split; [|exact Hp'].
        fuel_step (Nat.max f0 f1). rewrite Hc by lia. cbn. rewrite Hw. cbn.
        apply Hl. lia.
      * destruct IH as (p' & l' & [f1 Hl] & Hp' & Hrest).
        exists p', l'. split; [|split; assumption].
        fuel_step (Nat.max f0 f1). rewrite Hc by lia. cbn. rewrite Hw. cbn.
        apply Hl. lia.
Qed.

Lemma FilterGenerator_pulls (pred : T -> bool) (p p' : G) (opt : option T) :
  eventually (fun f => FilterGenerator.filter_loop f pred p) (opt, p') ->
  pulls (filter_state p pred) opt (filter_state p' pred).
Proof.
  intros [f0 Hl]. exists f0. intros f Hf.
  cbn. unfold FilterGenerator.operator_call. cbn. now rewrite Hl by lia.
Qed.

Lemma FilterGenerator_Produces (pred : T -> bool) (out : list T) :
  forall (l : list T) (p : G),
    Produces p l -> List.filter pred l = out ->
    Produces (filter_state p pred) out.
Proof.
  induction out as [|v out IH]; intros l p Hp Hout.
  - apply Produces_nil.
    apply Exhausted_intro with
      (P := fun g : FilterGenerator.t G T =>
              FilterGenerator.predicate_ g = pred /\
              exists l', Produces (FilterGenerator.parent_gen_ g) l' /\
                         List.filter pred l' = []).
    + intros [q r] [Hr (l' & Hq & Hnone)]. cbn in Hr, Hq. subst r.
      pose proof (filter_loop_spec pred Hq) as Hspec. rewrite Hnone in Hspec.
      destruct Hspec as (q' & Hloop & Hq').
      exists (filter_state q' pred). split.
      * now apply FilterGenerator_pulls.
      * split; [reflexivity|]. exists []. split; [|reflexivity].
        now apply Produces_nil.
    + split; [reflexivity|]. exists l. split; assumption.
  - pose proof (filter_loop_spec pred Hp) as Hspec. rewrite Hout in Hspec.
    destruct Hspec as (p' & l' & Hloop & Hp' & Hrest).
    apply Produces_cons. exists (filter_state p' pred). split.
    + now apply FilterGenerator_pulls.
    + now apply (IH l').
Qed.

Lemma MapGenerator_pulls {U : Type} (f : T -> U) (p p' : G) (opt : option T) :
  pulls p opt p' ->
  pulls (map_state p f) (option_map f opt) (map_state p' f).
Proof.
  intros [f0 Hc]. exists f0. intros fuel Hf.
  cbn. unfold MapGenerator.operator_call. cbn. rewrite Hc by lia.
  now destruct opt.
Qed.

Lemma MapGenerator_Produces {U : Type} (f : T -> U) (l : list T) :
  forall p : G, Produces p l -> Produces (map_state p f) (List.map f l).
Proof.
  induction l as [|v l IH]; intros p Hp.
  - cbn. apply Produces_nil.
    apply Exhausted_intro with
      (P := fun g : MapGenerator.t G T U =>
              MapGenerator.transform_ g = f /\
              Exhausted (MapGenerator.parent_gen_ g)).
    + intros [q r] [Hr Hq]. cbn in Hr, Hq. subst r.
      destruct (Exhausted_inv Hq) as (q' & Hpull & Hq').
      exists (map_state q' f). split.
      * apply (MapGenerator_pulls f Hpull).
      * split; [reflexivity | exact Hq'].
    + split; [reflexivity | now apply Produces_nil].
  - apply Produces_cons in Hp. destruct Hp as (p1 & Hpull & Hp1).
    cbn [List.map]. apply Produces_cons. exists (map_state p1 f). split.
    + apply (MapGenerator_pulls f Hpull).
    + now apply IH.
Qed.

End FilterMapFacts.

(** ** Batches *)
Section Chunks.
Context {T : Type}.

Lemma chunks_upto_nil (rounds g : nat) : chunks_upto rounds g (@nil T) = [].
Proof. destruct rounds; reflexivity. Qed.

Lemma ceil_div_0 (g : nat) : 1 <= g -> ceil_div 0 g = 0.
Proof. intros Hg. unfold ceil_div. apply Nat.div_small. lia. Qed.

Lemma ceil_div_step (n g : nat) :
  1 <= g -> 1 <= n -> ceil_div n g = S (ceil_div (n - g) g).
Proof.
  intros Hg Hn. unfold ceil_div.
  destruct (Nat.le_gt_cases g n) as [Hle|Hlt].
  - replace (n + g - 1) with ((n - g + g - 1) + 1 * g) by lia.
    rewrite Nat.div_add by lia. lia.
  - replace (n - g) with 0 by lia. cbn [Nat.add].
    rewrite (Nat.div_small (g - 1) g) by lia.
    symmetry. apply Nat.div_unique with (r := n - 1); lia.
Qed.

Lemma chunks_upto_concat (g : nat) :
  1 <= g ->
  forall (rounds : nat) (l : list T),
    length l <= rounds -> concat (chunks_upto rounds g l) = l.
Proof.
  intros Hg. induction rounds as [|rounds IH]; intros [|v l] Hlen; cbn in Hlen; try lia;
    try reflexivity.
  cbn [chunks_upto concat]. rewrite IH.
  - apply firstn_skipn.
  - rewrite length_skipn. cbn [length]. lia.
Qed.

Lemma chunks_upto_length (g : nat) :
  1 <= g ->
  forall (rounds : nat) (l : list T),
    length l <= rounds ->
    length (chunks_upto rounds g l) = ceil_div (length l) g.
Proof.
  intros Hg. induction rounds as [|rounds IH]; intros [|v l] Hlen;
    cbn in Hlen; try lia.
  - cbn. now rewrite ceil_div_0.
  - cbn. now rewrite ceil_div_0.
  - cbn [chunks_upto length]. rewrite IH.
    + rewrite length_skipn. cbn [length].
      now rewrite (ceil_div_step (n := S (length l)) Hg) by lia.
    + rewrite length_skipn. cbn [length]. lia.
Qed.

Lemma chunks_upto_bounded (g : nat) :
  1 <= g ->
  forall (rounds : nat) (l : list T),
    Forall (fun grp => grp <> [] /\ length grp <= g) (chunks_upto rounds g l).
Proof.
  intros Hg. induction rounds as [|rounds IH]; intros [|v l]; cbn [chunks_upto];
    try constructor.
  - split.
    + destruct g; [lia | discriminate].
    + rewrite length_firstn. lia.
  - apply IH.
Qed.

Lemma chunks_upto_full (g : nat) :
  forall (rounds : nat) (l : list T),
    Forall (fun grp => length grp = g) (removelast (chunks_upto rounds g l)).
Proof.
  induction rounds as [|rounds IH]; intros [|v l]; cbn [chunks_upto];
    try constructor.
  specialize (IH (skipn g (v :: l))).
  destruct (chunks_upto rounds g (skipn g (v :: l))) as [|y rest] eqn:E.
  - constructor.
  - change (removelast (firstn g (v :: l) :: y :: rest))
      with (firstn g (v :: l) :: removelast (y :: rest)).
    constructor; [|exact IH].
    rewrite length_firstn. apply Nat.min_l.
    destruct (Nat.le_gt_cases g (length (v :: l))) as [Hle|Hlt]; [exact Hle|].
    rewrite skipn_all2, chunks_upto_nil in E by lia. discriminate.
Qed.

End Chunks.

(** ** What a terminal operation sees behind a combinator

    A combinator copies the stored generator into the new one and moves the
    new one into the result; a terminal operation copies it once more. *)
Section PipedCopies.
Context {G T : Type} `{Generator G T} {R : Relocatable G}.

Lemma pipe_skip_copy (s : Stream G) (op : skip) :
  copy_ctor (generator_ (pipe_skip s op)) =
    {| SkipGenerator.parent_gen_ := copy_ctor (generator_ s);
       SkipGenerator.amount_to_skip_ := skip_amount op;
       SkipGenerator.skipped_ := false |}.
Proof.
  cbn. unfold SkipGenerator.copy. cbn. now rewrite copy_move, copy_copy.
Qed.

Lemma pipe_get_copy (s : Stream G) (op : get) :
  copy_ctor (generator_ (pipe_get s op)) =
    {| GetGenerator.parent_gen_ := copy_ctor (generator_ s);
       GetGenerator.amount_to_get_ := get_amount op;
       GetGenerator.amount_got_ := 0 |}.
Proof.
  cbn. unfold GetGenerator.copy. cbn. now rewrite copy_move, copy_copy.
Qed.

Lemma pipe_group_copy (s : Stream G) (op : group) :
  copy_ctor (generator_ (pipe_group s op)) =
    {| GroupGenerator.parent_gen_ := copy_ctor (generator_ s);
       GroupGenerator.group_size_ := group_size op |}.
Proof.
  cbn. unfold GroupGenerator.copy. cbn. now rewrite copy_move, copy_copy.
Qed.

Lemma pipe_skip_Produces (s : Stream G) (k : N) (l : list T) :
  (k <= SIZE_MAX)%N -> StreamProduces s l ->
  StreamProduces (pipe_skip s {| skip_amount := k |}) (skipn (N.to_nat k) l).
Proof.
  intros Hk Hp. unfold StreamProduces. rewrite pipe_skip_copy.
  now apply SkipGenerator_Produces.
Qed.

Lemma pipe_get_Produces (s : Stream G) (k : N) (l : list T) :
  (k <= SIZE_MAX)%N -> StreamProduces s l ->
  StreamProduces (pipe_get s {| get_amount := k |}) (firstn (N.to_nat k) l).
Proof.
  intros Hk Hp. unfold StreamProduces. rewrite pipe_get_copy. cbn.
  rewrite <- (N.sub_0_r k) at 2.
  apply GetGenerator_Produces; [exact Hk | lia | exact Hp].
Qed.

Lemma pipe_group_Produces (s : Stream G) (g : N) (l : list T) :
  (1 <= g)%N -> (g <= SIZE_MAX)%N -> StreamProduces s l ->
  StreamProduces (pipe_group s (group_ctor g)) (chunks (N.to_nat g) l).
Proof.
  intros Hpos Hg Hp. unfold StreamProduces. rewrite pipe_group_copy.
  now apply GroupGenerator_Produces.
Qed.

Lemma pipe_filter_Produces (s : Stream G) (pred : T -> bool) (l : list T) :
  StreamProduces s l ->
  StreamProduces (pipe_filter s {| predicate := pred |}) (List.filter pred l).
Proof.
  intros Hp. unfold StreamProduces. cbn. unfold FilterGenerator.copy. cbn.
  rewrite copy_move, copy_copy.
  now apply (FilterGenerator_Produces pred (l := l)).
Qed.

Lemma pipe_map_Produces {U : Type} (s : Stream G) (f : T -> U) (l : list T) :
  StreamProduces s l ->
  StreamProduces (pipe_map s {| transform := f |}) (List.map f l).
Proof.
  intros Hp. unfold StreamProduces. cbn. unfold MapGenerator.copy. cbn.
  rewrite copy_move, copy_copy.
  now apply MapGenerator_Produces.
Qed.

End PipedCopies.

(** * The claims *)

(** C2: [get] always yields a stream tagged [Finite], whatever the tag of
    its input, and it is the only combinator that changes the tag: [skip],
    [filter], [map] and [group] yield a stream with the tag of their
    input. *)
Theorem C2_finiteness_tag :
  forall (G T : Type) (Gen : Generator G T) (s : Stream G),
    (forall op : get,
        tag (pipe_get s op) = Finite /\ is_finite (pipe_get s op) = true) /\
    (forall op : skip,
        tag (pipe_skip s op) = tag s /\
        is_finite (pipe_skip s op) = is_finite s) /\
    (forall op : filter T,
        tag (pipe_filter s op) = tag s /\
        is_finite (pipe_filter s op) = is_finite s) /\
    (forall (U : Type) (op : map T U),
        tag (pipe_map s op) = tag s /\
        is_finite (pipe_map s op) = is_finite s) /\
    (forall op : group,
        tag (pipe_group s op) = tag s /\
        is_finite (pipe_group s op) = is_finite s).
Proof.
  intros G T Gen s. repeat split.
Qed.

(** C6: [to_vector], [sum], [reduce] and [print_to] are accepted on a
    stream tagged [Finite] and rejected by their [static_assert] on a stream
    tagged [Infinite], whatever the generator and before any pull (already
    with no fuel at all); [nth] has no such assertion and is the one
    terminal operation an [Infinite] stream accepts. *)
Theorem C6_static_finiteness_check :
  forall (G T : Type) (Gen : Generator G T) (g : G),
    let infinite := {| tag := Infinite; generator_ := g |} in
    let finite := {| tag := Finite; generator_ := g |} in
    (forall show fuel props,
        pipe_print_to show fuel infinite props =
          Ret (static_assert_failure
                 "Operation print_to cannot be performed on infinite stream.")) /\
    (forall (U : Type) fuel (props : reduce U T),
        pipe_reduce fuel infinite props =
          Ret (static_assert_failure
                 "Operation reduce cannot be performed on infinite stream.")) /\
    (forall fuel,
        pipe_to_vector fuel infinite to_vector_ctor =
          Ret (static_assert_failure
                 "Operation to_vector cannot be performed on infinite stream.")) /\
    (forall plus fuel,
        pipe_sum plus fuel infinite sum_ctor =
          Ret (static_assert_failure
                 "Operation sum cannot be performed on infinite stream.")) /\
    (forall fuel props msg,
        pipe_nth fuel infinite props <> Ret (static_assert_failure msg) /\
        pipe_nth fuel finite props <> Ret (static_assert_failure msg)) /\
    (forall show fuel props msg,
        pipe_print_to show fuel finite props <> Ret (static_assert_failure msg)) /\
    (forall (U : Type) fuel (props : reduce U T) msg,
        pipe_reduce fuel finite props <> Ret (static_assert_failure msg)) /\
    (forall fuel msg,
        pipe_to_vector fuel finite to_vector_ctor <> Ret (static_assert_failure msg)) /\
    (forall plus fuel msg,
        pipe_sum plus fuel finite sum_ctor <> Ret (static_assert_failure msg)).
Proof.
  intros G T Gen g infinite finite.
  assert (Hnth : forall (s : Stream G) fuel props msg,
             pipe_nth fuel s props <> Ret (static_assert_failure msg)).
  { intros s fuel props msg. unfold pipe_nth.
    destruct (nth_loop fuel (n props) 0 None (copy_ctor (generator_ s)))
      as [[[i opt] g']| |]; cbn; try discriminate.
    destruct (i <=? n props)%N; [discriminate|].
    destruct opt; discriminate. }
  repeat split; try reflexivity; try apply Hnth.
  - intros show fuel props msg. unfold pipe_print_to. cbn.
    destruct (call fuel (copy_ctor g)) as [[[v|] g']| |]; cbn; try discriminate.
    destruct (print_to_loop show fuel _ _ g'); cbn; discriminate.
  - intros U fuel props msg. unfold pipe_reduce. cbn.
    destruct (call fuel (copy_ctor g)) as [[[v|] g']| |]; cbn; try discriminate.
    destruct (reduce_loop fuel _ _ g'); cbn; discriminate.
  - intros fuel msg. unfold pipe_to_vector. cbn.
    destruct (to_vector_loop fuel [] (copy_ctor g)); cbn; discriminate.
  - intros plus fuel msg. unfold pipe_sum. cbn.
    destruct (call fuel (copy_ctor g)) as [[[v|] g']| |]; cbn; try discriminate.
    destruct (sum_loop plus fuel _ g'); cbn; discriminate.
Qed.

(** ** [get] on a value generator *)

Lemma values_from_length {St T : Type} (inv : St -> T * St) :
  forall (k : nat) (st : St), length (values_from inv st k) = k.
Proof.
  induction k as [|k IH]; intros st; cbn; [reflexivity|].
  destruct (inv st) as [v st']. cbn. now rewrite IH.
Qed.

Lemma GetGenerator_Infinite_Produces {St T : Type} (inv : St -> T * St) (a : N) :
  (a <= SIZE_MAX)%N ->
  forall (k : nat) (st : St) (got : N),
    (got + N.of_nat k = a)%N ->
    Produces
      {| GetGenerator.parent_gen_ :=
           InfiniteGenerator.ctor {| invoke := inv; captured := st |};
         GetGenerator.amount_to_get_ := a;
         GetGenerator.amount_got_ := got |}
      (values_from inv st k).
Proof.
  intros Ha. induction k as [|k IH]; intros st got Hk.
  - cbn. apply Produces_nil. apply GetGenerator_done. lia.
  - cbn [values_from]. destruct (inv st) as [v st'] eqn:E.
    apply Produces_cons.
    exists {| GetGenerator.parent_gen_ :=
                InfiniteGenerator.ctor {| invoke := inv; captured := st' |};
              GetGenerator.amount_to_get_ := a;
              GetGenerator.amount_got_ := (got + 1)%N |}.
    split.
    + apply GetGenerator_pulls; [lia | exact Ha |].
      exists 0. intros f _. cbn. unfold InfiniteGenerator.operator_call. cbn.
      now rewrite E.
    + apply IH. lia.
Qed.

(** C9: on the infinite stream of a value generator, [get(k)] followed by
    [to_vector] returns exactly [k] elements, the first [k] values of the
    generator in order.  The [get] generator returns [std::nullopt] without
    touching its parent once [amount_got_] has reached [amount_to_get_];
    before that it counts one pull and hands exactly that pull to the
    parent, passing on whatever the parent returns. *)
Theorem C9_get_on_infinite :
  forall (St T : Type) (vg : ValueGenerator St T) (k : N),
    (k <= SIZE_MAX)%N ->
    let source := Stream_value_generator vg in
    let taken := pipe_get source {| get_amount := k |} in
    let out := values vg (N.to_nat k) in
    tag source = Infinite /\
    eventually (fun fuel => pipe_to_vector fuel taken to_vector_ctor) (Returns out) /\
    length out = N.to_nat k /\
    (forall (G U : Type) (Gen : Generator G U) fuel (this : GetGenerator.t G),
        (GetGenerator.amount_to_get_ this <= GetGenerator.amount_got_ this)%N ->
        call fuel this = Ret (None, this)) /\
    (forall (G U : Type) (Gen : Generator G U) fuel (this : GetGenerator.t G),
        (GetGenerator.amount_got_ this < GetGenerator.amount_to_get_ this)%N ->
        call fuel this =
          '(opt, parent') <- call fuel (GetGenerator.parent_gen_ this) ;;
          Ret (opt, {| GetGenerator.parent_gen_ := parent';
                       GetGenerator.amount_to_get_ := GetGenerator.amount_to_get_ this;
                       GetGenerator.amount_got_ :=
                         size_t_incr (GetGenerator.amount_got_ this) |})) /\
    (forall got : N, (got < k)%N -> size_t_incr got = (got + 1)%N).
Proof.
  intros St T vg k Hk source taken out.
  split; [reflexivity|].
  split; [|split; [|split; [|split]]].
  - apply pipe_to_vector_Produces; [reflexivity|].
    unfold StreamProduces, taken, source, out, values. destruct vg as [inv st].
    apply (@GetGenerator_Infinite_Produces St T inv k Hk (N.to_nat k) st 0%N).
    lia.
  - apply values_from_length.
  - intros G U Gen fuel this. apply GetGenerator_call_done.
  - intros G U Gen fuel this. apply GetGenerator_call_delegates.
  - intros got Hgot. apply size_t_incr_small. lia.
Qed.

Lemma C9_get_on_infinite_witness :
  (5 <= SIZE_MAX)%N /\
  eventually
    (fun fuel =>
       pipe_to_vector fuel
         (pipe_get (Stream_value_generator (counter 1)) {| get_amount := 5 |})
         to_vector_ctor)
    (Returns one_to_five).
Proof.
  split; [vm_compute; discriminate|].
  apply (@C9_get_on_infinite Z Z (counter 1) 5%N).
  vm_compute; discriminate.
Defined.

(** C5: on a finite stream, [reduce(identity, accumulator)] throws the
    "empty stream" [IllegalStreamOperation] when the first pull returns
    nothing; otherwise it returns the left fold of [accumulator] over the
    remaining values, in pull order, seeded with [identity] of the first
    value.  On [1, 2, 3, 4, 5] with identity [x -> 10 x] and accumulator
    [(r, v) -> r + 2 v] it returns [38]. *)
Theorem C5_reduce_on_finite :
  forall (G T U : Type) (Gen : Generator G T) (s : Stream G) (l : list T)
         (props : reduce U T),
    tag s = Finite ->
    StreamDrains s l ->
    eventually (fun fuel => pipe_reduce fuel s props)
      match l with
      | [] =>
          Throws (IllegalStreamOperation
            "Operation 'reduce' cannot be performed on empty stream.")
      | first :: rest =>
          Returns (fold_left (accumulator props) rest (identity props first))
      end /\
    eventually
      (fun fuel =>
         pipe_reduce fuel (Stream_initializer_list one_to_five)
           (reduce_ctor2 (fun x => 10 * x)%Z (fun r v => r + 2 * v)%Z))
      (Returns 38%Z).
Proof.
  assert (Hgen : forall (G T U : Type) (Gen : Generator G T) (s : Stream G)
                        (l : list T) (props : reduce U T),
             tag s = Finite -> StreamDrains s l ->
             eventually (fun fuel => pipe_reduce fuel s props)
               match l with
               | [] =>
                   Throws (IllegalStreamOperation
                     "Operation 'reduce' cannot be performed on empty stream.")
               | first :: rest =>
                   Returns (fold_left (accumulator props) rest
                              (identity props first))
               end).
  { intros G T U Gen s l props Htag (g' & g'' & Hy & Hend).
    unfold pipe_reduce. rewrite Htag. destruct l as [|first rest]; cbn in Hy.
    - subst g'. destruct Hend as [f0 Hc]. exists f0. intros f Hf.
      now rewrite Hc by lia.
    - destruct Hy as (g1 & [f0 Hc] & Hy).
      destruct (reduce_loop_Yields (accumulator props) rest _
                  (identity props first) Hy Hend) as [f1 Hl].
      exists (Nat.max f0 f1). intros f Hf.
      rewrite Hc by lia. cbn. now rewrite Hl by lia. }
  intros G T U Gen s l props Htag Hd. split.
  - now apply Hgen.
  - apply (Hgen _ _ _ _ (Stream_initializer_list one_to_five) one_to_five
             (reduce_ctor2 (fun x => 10 * x)%Z (fun r v => r + 2 * v)%Z)).
    + reflexivity.
    + apply Produces_Drains. apply Stream_initializer_list_Produces.
Qed.

Lemma C5_reduce_on_finite_witness :
  tag (Stream_initializer_list (@nil Z)) = Finite /\
  StreamDrains (Stream_initializer_list (@nil Z)) [] /\
  eventually
    (fun fuel =>
       pipe_reduce fuel (Stream_initializer_list (@nil Z))
         (reduce_ctor2 (fun x => 10 * x)%Z (fun r v => r + 2 * v)%Z))
    (Throws (IllegalStreamOperation
       "Operation 'reduce' cannot be performed on empty stream.")).
Proof.
  split; [reflexivity|].
  split; [apply Produces_Drains; apply Stream_initializer_list_Produces|].
  apply (@C5_reduce_on_finite (ContainerGenerator.t Z) Z Z _
           (Stream_initializer_list (@nil Z)) []
           (reduce_ctor2 (fun x => 10 * x)%Z (fun r v => r + 2 * v)%Z)).
  - reflexivity.
  - apply Produces_Drains. apply Stream_initializer_list_Produces.
Defined.

(** ** [group(0)] *)

Lemma GroupGenerator_zero_Produces {G T : Type} `{Generator G T} (l : list T) :
  forall p : G,
    Produces p l ->
    Produces {| GroupGenerator.parent_gen_ := p; GroupGenerator.group_size_ := 0 |}
             (List.map (fun v => [v]) l).
Proof.
  induction l as [|v l IH]; intros p Hp.
  - cbn. apply Produces_nil. apply GroupGenerator_Exhausted.
    now apply Produces_nil.
  - destruct (@GroupGenerator_pulls_batch G T _ 0%N p v l ltac:(discriminate) Hp)
      as (p' & Hpull & Hp').
    cbn in Hpull, Hp'. cbn [List.map]. apply Produces_cons.
    eexists. split; [exact Hpull|]. now apply IH.
Qed.

(** C3: what the code does for a group of size 0.  [group(0)] is
    constructed like any other group object, no error is raised, and the
    grouped stream returns one group per element, exactly as [group(1)]
    does. *)
Theorem C3_group_zero_is_accepted :
  group_ctor 0 = {| group_size := 0 |} /\
  (forall (T : Type) (l : list T),
      eventually
        (fun fuel =>
           pipe_to_vector fuel
             (pipe_group (Stream_initializer_list l) (group_ctor 0)) to_vector_ctor)
        (Returns (List.map (fun v => [v]) l))) /\
  pipe_to_vector 4
    (pipe_group (Stream_initializer_list [1; 2; 3]%Z) (group_ctor 0)) to_vector_ctor
  = Ret (Returns [[1]; [2]; [3]]%Z) /\
  pipe_to_vector 4
    (pipe_group (Stream_initializer_list [1; 2; 3]%Z) (group_ctor 1)) to_vector_ctor
  = Ret (Returns [[1]; [2]; [3]]%Z).
Proof.
  split; [reflexivity|]. split; [|split; reflexivity].
  intros T l. apply pipe_to_vector_Produces; [reflexivity|].
  unfold StreamProduces. rewrite pipe_group_copy.
  apply GroupGenerator_zero_Produces. apply ContainerGenerator_Produces.
Qed.

(** ** [nth] *)
Section NthFacts.
Context {G T : Type} `{Generator G T}.

(** For an index below [SIZE_MAX], [nth(n)] returns the value of pull
    [n + 1] when the first [n + 1] pulls succeed. *)
Lemma pipe_nth_reaches (s : Stream G) (l : list T) (v : T) (g' : G) (k : N) :
  (k < SIZE_MAX)%N ->
  Yields (copy_ctor (generator_ s)) (l ++ [v]) g' ->
  N.of_nat (length l) = k ->
  eventually (fun fuel => pipe_nth fuel s {| n := k |}) (Returns v).
Proof.
  intros Hk Hy Hlen.
  destruct (@nth_loop_reaches G T _ k l Hk _ g' 0%N None v Hy ltac:(lia))
    as [f0 Hl].
  exists f0. intros f Hf. unfold pipe_nth. cbn. rewrite Hl by lia. cbn.
  now rewrite (proj2 (N.leb_gt (k + 1) k)) by lia.
Qed.

(** When the generator runs dry after at most [n] values, [nth(n)] throws. *)
Lemma pipe_nth_runs_dry (s : Stream G) (l : list T) (k : N) :
  (k <= SIZE_MAX)%N ->
  StreamDrains s l ->
  (N.of_nat (length l) <= k)%N ->
  eventually (fun fuel => pipe_nth fuel s {| n := k |})
    (Throws (IllegalStreamOperation
       "Stream doesn't contain enough elements to perform operation 'nth'.")).
Proof.
  intros Hk (g' & g'' & Hy & Hend) Hlen.
  destruct (@nth_loop_runs_dry G T _ k l Hk _ g' g'' 0%N None Hy Hend ltac:(lia))
    as [f0 Hl].
  exists f0. intros f Hf. unfold pipe_nth. cbn. rewrite Hl by lia.
  cbn [bind n]. rewrite N.add_0_l.
  now rewrite (proj2 (N.leb_le (N.of_nat (length l)) k)) by lia.
Qed.

End NthFacts.

Lemma size_t_incr_bound (i : N) : (size_t_incr i <= SIZE_MAX)%N.
Proof.
  unfold size_t_incr, SIZE_MAX.
  pose proof (N.mod_upper_bound (i + 1) (2 ^ SIZE_WIDTH)) as Hb.
  assert (2 ^ SIZE_WIDTH <> 0)%N by (vm_compute; discriminate).
  specialize (Hb ltac:(assumption)).
  assert (0 < 2 ^ SIZE_WIDTH)%N by lia. lia.
Qed.

Lemma nth_loop_size_max_runs_out {St T : Type} (inv : St -> T * St) :
  forall (fuel : nat) (i : N) (opt : option T) (st : St),
    (i <= SIZE_MAX)%N ->
    nth_loop fuel SIZE_MAX i opt
      (InfiniteGenerator.ctor {| invoke := inv; captured := st |}) = OutOfFuel.
Proof.
  induction fuel as [|fuel IH]; intros i opt st Hi; cbn [nth_loop];
    rewrite (proj2 (N.leb_le i SIZE_MAX) Hi); [reflexivity|].
  cbn. unfold InfiniteGenerator.operator_call. cbn.
  destruct (inv st) as [v st']. cbn.
  apply IH. apply size_t_incr_bound.
Qed.

(** C4: what the code does for the index [SIZE_MAX].  On the stream of a
    value generator the loop guard [i <= n] never fails, [++i] wraps to 0
    after [2^64] pulls, and [nth] goes on pulling: no amount of fuel lets
    the call return. *)
Theorem C4_nth_size_max_never_returns :
  forall (St T : Type) (vg : ValueGenerator St T),
    let run_nth :=
      fun fuel => pipe_nth fuel (Stream_value_generator vg) {| n := SIZE_MAX |} in
    size_t_incr SIZE_MAX = 0%N /\
    diverges run_nth /\
    (forall r, ~ eventually run_nth r).
Proof.
  intros St T [inv st] run_nth. split; [reflexivity|].
  assert (Hd : diverges run_nth); [|split; [exact Hd|]].
  2:{ intros r Hr. exact (eventually_not_diverges Hr Hd). }
  intros fuel. unfold run_nth. unfold pipe_nth. cbn.
  change (InfiniteGenerator.copy
            (InfiniteGenerator.ctor {| invoke := inv; captured := st |}))
    with (InfiniteGenerator.ctor {| invoke := inv; captured := st |}).
  rewrite nth_loop_size_max_runs_out; [reflexivity|].
  vm_compute; discriminate.
Qed.

(** ** [PackGenerator] *)

Lemma Stream_pack_tag {T : Type} (first : T) (args : list T) :
  tag (Stream_pack first args) = Finite.
Proof.
  revert first. induction args as [|a args IH]; intros first; cbn;
    [reflexivity | apply IH].
Qed.

(** The pack is stored back to front, with the cursor on [crbegin()]. *)
Lemma Stream_pack_generator {T : Type} (args : list T) :
  forall first : T,
    generator_ (Stream_pack first args) =
      {| PackGenerator.container_ := rev (first :: args);
         PackGenerator.current_ := S (length args);
         PackGenerator.end_ := 0 |}.
Proof.
  induction args as [|a args IH]; intros first; [reflexivity|].
  cbn [Stream_pack generator_]. rewrite IH. unfold PackGenerator.push_back.
  cbn [PackGenerator.container_]. f_equal.
  rewrite length_app, length_rev. cbn [length]. lia.
Qed.

Lemma firstn_succ_nth_error {T : Type} (c : list T) :
  forall (i : nat) (v : T),
    nth_error c i = Some v -> firstn (S i) c = firstn i c ++ [v].
Proof.
  induction c as [|x c IH]; intros [|i] v Hnth; cbn in *; try discriminate.
  - now inversion Hnth.
  - f_equal. now apply IH.
Qed.

Lemma PackGenerator_Produces_from {T : Type} (c : list T) :
  forall i : nat,
    i <= length c ->
    Produces {| PackGenerator.container_ := c;
                PackGenerator.current_ := i;
                PackGenerator.end_ := 0 |}
             (rev (firstn i c)).
Proof.
  induction i as [|i IH]; intros Hi.
  - cbn. apply Produces_nil.
    apply Exhausted_intro with
      (P := fun g => g = {| PackGenerator.container_ := c;
                            PackGenerator.current_ := 0;
                            PackGenerator.end_ := 0 |});
      [|reflexivity].
    intros g ->. eexists. split; [|reflexivity].
    exists 0. intros f _. reflexivity.
  - destruct (nth_error c i) as [v|] eqn:Hnth.
    2:{ apply nth_error_None in Hnth. lia. }
    rewrite (firstn_succ_nth_error c i Hnth), rev_app_distr. cbn [rev app].
    apply Produces_cons. eexists. split; [|apply IH; lia].
    exists 0. intros f _. cbn. unfold PackGenerator.operator_call. cbn.
    now rewrite Hnth.
Qed.

(** A stream built from a literal pack, used in place, is the sequence of
    its arguments. *)
Lemma Stream_pack_Produces {T : Type} (first : T) (args : list T) :
  StreamProduces (Stream_pack first args) (first :: args).
Proof.
  unfold StreamProduces. rewrite Stream_pack_generator.
  rewrite PackGenerator_copy_keeps_cursor.
  pose proof (@PackGenerator_Produces_from T (rev (first :: args))
                (S (length args))) as Hp.
  rewrite firstn_all2, rev_involutive in Hp
    by (rewrite length_rev; cbn; lia).
  apply Hp. rewrite length_rev. cbn. lia.
Qed.

(** The first pull of a moved, non-empty pack generator reads before the
    start of its buffer. *)
Lemma PackGenerator_moved_call {T : Type} (g : PackGenerator.t T) (fuel : nat) :
  PackGenerator.container_ g <> [] ->
  call fuel (copy_ctor (move_ctor g)) = Undefined.
Proof.
  intros Hne. cbn. unfold PackGenerator.operator_call. cbn.
  destruct (PackGenerator.container_ g); [contradiction | reflexivity].
Qed.

(** C1: where the code falls short of restart-on-copy.  A stream built
    from a literal pack and used in place returns its arguments.  Once its
    generator has gone through the move constructor, as it does when the
    stream is moved or passed through a combinator, the copy taken by a
    terminal operation starts at [crend()] instead of [crbegin()] and its
    first pull reads out of bounds; copying after a move no longer gives
    what copying the original gives.  The same elements held by a
    [ContainerGenerator] survive the move. *)
Theorem C1_moved_pack_generator_loses_its_cursor :
  forall (T : Type) (first : T) (args : list T),
    let s := Stream_pack first args in
    eventually (fun fuel => pipe_to_vector fuel s to_vector_ctor)
      (Returns (first :: args)) /\
    (forall fuel,
        pipe_to_vector (S fuel) (Stream_move s) to_vector_ctor = Undefined) /\
    (forall fuel k,
        pipe_to_vector (S (S fuel)) (pipe_skip s {| skip_amount := k |}) to_vector_ctor
        = Undefined) /\
    copy_ctor (move_ctor (generator_ s)) <> copy_ctor (generator_ s) /\
    PackGenerator.current_ (copy_ctor (move_ctor (generator_ s))) = 0 /\
    PackGenerator.end_ (copy_ctor (move_ctor (generator_ s))) = S (length args) /\
    eventually
      (fun fuel =>
         pipe_to_vector fuel
           (Stream_move (Stream_initializer_list (first :: args))) to_vector_ctor)
      (Returns (first :: args)).
Proof.
  intros T first args s.
  assert (Hne : PackGenerator.container_ (generator_ s) <> []).
  { unfold s. rewrite Stream_pack_generator. cbn.
    intros E. apply app_eq_nil in E. destruct E as [_ E]. discriminate. }
  split; [|split; [|split; [|split; [|split; [|split]]]]].
  - apply pipe_to_vector_Produces;
      [apply Stream_pack_tag | apply Stream_pack_Produces].
  - intros fuel. unfold pipe_to_vector.
    change (tag (Stream_move s)) with (tag s). unfold s at 1.
    rewrite Stream_pack_tag. cbn [to_vector_loop generator_ Stream_move].
    rewrite (PackGenerator_moved_call _ fuel Hne). reflexivity.
  - intros fuel k. unfold pipe_to_vector.
    change (tag (pipe_skip s {| skip_amount := k |})) with (tag s). unfold s at 1.
    rewrite Stream_pack_tag. cbn [to_vector_loop].
    assert (Hcall : call (S fuel)
                      (copy_ctor (generator_ (pipe_skip s {| skip_amount := k |})))
                    = Undefined).
    { cbn. unfold SkipGenerator.operator_call. cbn.
      pose proof (PackGenerator_moved_call (PackGenerator.copy (generator_ s))) as Hm.
      cbn in Hm.
      destruct (0 <? k)%N eqn:Hk.
      - rewrite (Hm fuel Hne). reflexivity.
      - cbn [bind]. rewrite Hk. rewrite (Hm fuel Hne). reflexivity. }
    now rewrite Hcall.
  - unfold s. rewrite Stream_pack_generator. cbn. intros E. discriminate.
  - reflexivity.
  - unfold s. rewrite Stream_pack_generator. cbn.
    rewrite length_app, length_rev. cbn. lia.
  - apply pipe_to_vector_Produces; [reflexivity|].
    apply (ContainerGenerator_Produces (first :: args)).
Qed.

(** The generator a terminal operation copies behind a combinator over a
    literal pack has gone through the move constructor: its first pull is
    undefined. *)
Lemma Stream_pack_moved_parent_call {T : Type} (first : T) (args : list T)
  (fuel : nat) :
  PackGenerator.operator_call
    (PackGenerator.copy
       (PackGenerator.move
          (PackGenerator.copy (generator_ (Stream_pack first args))))) = Undefined.
Proof.
  assert (Hne : PackGenerator.container_
                  (PackGenerator.copy (generator_ (Stream_pack first args))) <> []).
  { rewrite Stream_pack_generator. cbn.
    intros E. apply app_eq_nil in E. destruct E as [_ E]. discriminate. }
  exact (PackGenerator_moved_call
           (PackGenerator.copy (generator_ (Stream_pack first args))) fuel Hne).
Qed.

(** C7: where the code falls short for [group].  A stream built from a
    literal pack is tagged [Finite] and is the sequence of its arguments,
    yet [group(g)] followed by [to_vector] returns no groups at all: the
    group generator is moved into the new stream, its pack parent loses
    the cursor in the move constructor, and the first pull reads out of
    bounds, whatever the group size. *)
Theorem C7_group_on_a_pack_stream_is_undefined :
  forall (T : Type) (first : T) (args : list T) (g : N) (fuel : nat),
    let s := Stream_pack first args in
    tag s = Finite /\
    StreamProduces s (first :: args) /\
    tag (pipe_group s (group_ctor g)) = Finite /\
    pipe_to_vector (S fuel) (pipe_group s (group_ctor g)) to_vector_ctor = Undefined.
Proof.
  intros T first args g fuel s.
  split; [apply Stream_pack_tag|].
  split; [apply Stream_pack_Produces|].
  split; [apply Stream_pack_tag|].
  unfold pipe_to_vector.
  change (tag (pipe_group s (group_ctor g))) with (tag s). unfold s at 1.
  rewrite Stream_pack_tag. cbn [to_vector_loop].
  assert (Hcall : call fuel (copy_ctor (generator_ (pipe_group s (group_ctor g))))
                  = Undefined).
  { pose proof (Stream_pack_moved_parent_call first args fuel) as Hm.
    unfold s. cbn. unfold GroupGenerator.operator_call. cbn.
    cbn in Hm. now rewrite Hm. }
  now rewrite Hcall.
Qed.

(** C8: where the code falls short for [skip].  A stream built from a
    literal pack is tagged [Finite] and is the sequence of its arguments,
    yet [skip(k)] followed by [to_vector] returns no elements at all: the
    skip generator is moved into the new stream, its pack parent loses the
    cursor in the move constructor, and the first pull reads out of bounds,
    whatever the amount to skip. *)
Theorem C8_skip_on_a_pack_stream_is_undefined :
  forall (T : Type) (first : T) (args : list T) (k : N) (fuel : nat),
    let s := Stream_pack first args in
    tag s = Finite /\
    StreamProduces s (first :: args) /\
    tag (pipe_skip s {| skip_amount := k |}) = Finite /\
    pipe_to_vector (S (S fuel)) (pipe_skip s {| skip_amount := k |}) to_vector_ctor
    = Undefined.
Proof.
  intros T first args k fuel s.
  split; [apply Stream_pack_tag|].
  split; [apply Stream_pack_Produces|].
  split; [apply Stream_pack_tag|].
  unfold pipe_to_vector.
  change (tag (pipe_skip s {| skip_amount := k |})) with (tag s). unfold s at 1.
  rewrite Stream_pack_tag. cbn [to_vector_loop].
  assert (Hcall : call (S fuel)
                    (copy_ctor (generator_ (pipe_skip s {| skip_amount := k |})))
                  = Undefined).
  { pose proof (Stream_pack_moved_parent_call first args fuel) as Hm.
    unfold s. cbn. unfold SkipGenerator.operator_call. cbn. cbn in Hm.
    destruct (0 <? k)%N eqn:Hk.
    - now rewrite Hm.
    - cbn [bind]. rewrite Hk. now rewrite Hm. }
  now rewrite Hcall.
Qed.

(** C10: where the code falls short for [get].  A stream built from a
    literal pack is tagged [Finite] and is the sequence of its arguments,
    yet [get(k)] with [k >= 1] followed by [to_vector] returns no elements
    at all: the get generator is moved into the new stream, its pack
    parent loses the cursor in the move constructor, and the first pull
    reads out of bounds. *)
Theorem C10_get_on_a_pack_stream_is_undefined :
  forall (T : Type) (first : T) (args : list T) (k : positive) (fuel : nat),
    let s := Stream_pack first args in
    tag s = Finite /\
    StreamProduces s (first :: args) /\
    pipe_to_vector (S fuel) (pipe_get s {| get_amount := N.pos k |}) to_vector_ctor
    = Undefined.
Proof.
  intros T first args k fuel s.
  split; [apply Stream_pack_tag|].
  split; [apply Stream_pack_Produces|].
  unfold pipe_to_vector. cbn [tag pipe_get Stream_private to_vector_loop].
  assert (Hcall : call fuel
                    (copy_ctor (generator_ (pipe_get s {| get_amount := N.pos k |})))
                  = Undefined).
  { pose proof (Stream_pack_moved_parent_call first args fuel) as Hm.
    unfold s. cbn. unfold GetGenerator.operator_call. cbn.
    cbn in Hm. now rewrite Hm. }
  now rewrite Hcall.
Qed.

(** * Further properties of the library *)

(** ** Construction, copy and move *)

(** X1: [to_vector] on a stream built from a container, from an iterator
    range or from an initializer list returns the elements it was built
    from, in order. *)
Theorem to_vector_returns_the_container :
  forall (T : Type) (c : list T),
    eventually (fun fuel => pipe_to_vector fuel (Stream_container c) to_vector_ctor)
      (Returns c) /\
    eventually (fun fuel => pipe_to_vector fuel (Stream_range c) to_vector_ctor)
      (Returns c) /\
    eventually
      (fun fuel => pipe_to_vector fuel (Stream_initializer_list c) to_vector_ctor)
      (Returns c).
Proof.
  intros T c. repeat split;
    (apply pipe_to_vector_Produces;
     [reflexivity | apply ContainerGenerator_Produces]).
Qed.

(** X2: a copy or a move of a [ContainerGenerator] starts at the beginning
    of the container wherever the cursor of the source stands: it produces
    the whole container, not the rest of it. *)
Theorem ContainerGenerator_copy_restarts :
  forall (T : Type) (g : ContainerGenerator.t T),
    Produces (copy_ctor g) (ContainerGenerator.container_ g) /\
    Produces (move_ctor g) (ContainerGenerator.container_ g).
Proof.
  intros T g. split; apply (ContainerGenerator_Produces (ContainerGenerator.container_ g)).
Qed.

(** X3: every constructor of [ContainerGenerator] seats the iterators on
    the object's own container, and [operator()] keeps them there: from a
    seated generator a call never reads out of bounds, it returns the
    element under the cursor and advances by one, and at the end it returns
    [std::nullopt] and leaves the generator as it is. *)
Theorem ContainerGenerator_stays_seated :
  forall (T : Type) (g : ContainerGenerator.t T) (fuel : nat),
    ContainerGenerator_seated g ->
    ContainerGenerator_seated (copy_ctor g) /\
    ContainerGenerator_seated (move_ctor g) /\
    ContainerGenerator_seated (ContainerGenerator.ctor (ContainerGenerator.container_ g)) /\
    exists opt g',
      call fuel g = Ret (opt, g') /\
      ContainerGenerator_seated g' /\
      ContainerGenerator.container_ g' = ContainerGenerator.container_ g /\
      opt = nth_error (ContainerGenerator.container_ g) (ContainerGenerator.current_ g) /\
      (opt = None -> g' = g) /\
      (opt <> None ->
       ContainerGenerator.current_ g' = S (ContainerGenerator.current_ g)).
Proof.
  intros T [c i e] fuel [Hi He]. cbn in Hi, He. subst e.
  split; [|split; [|split]]; try (split; cbn; lia).
  cbn. unfold ContainerGenerator.operator_call. cbn.
  destruct (Nat.eqb_spec i (length c)) as [->|Hne].
  - eexists _, _. split; [reflexivity|].
    split; [split; cbn; lia|]. split; [reflexivity|].
    split; [|split; [reflexivity | congruence]].
    symmetry. apply nth_error_None. cbn. lia.
  - destruct (nth_error c i) as [v|] eqn:Hnth.
    2:{ apply nth_error_None in Hnth. lia. }
    eexists _, _. split; [reflexivity|].
    split; [split; cbn; lia|]. split; [reflexivity|].
    split; [reflexivity|]. split; [discriminate | reflexivity].
Qed.

Lemma ContainerGenerator_stays_seated_witness :
  ContainerGenerator_seated (ContainerGenerator.ctor one_to_five) /\
  exists opt g',
    call 0 (ContainerGenerator.ctor one_to_five) = Ret (opt, g') /\
    ContainerGenerator_seated g'.
Proof.
  assert (Hs : ContainerGenerator_seated (ContainerGenerator.ctor one_to_five))
    by (split; cbn; lia).
  split; [exact Hs|].
  destruct (@ContainerGenerator_stays_seated Z (ContainerGenerator.ctor one_to_five) 0 Hs)
    as (_ & _ & _ & opt & g' & Hcall & Hseated & _).
  exists opt, g'. split; assumption.
Defined.

(** X4: copying or moving a stream whose generator survives the move
    constructor gives a stream of the same elements, and [to_vector]
    returns them from the copy and from the moved stream alike. *)
Theorem Stream_copy_and_move_keep_the_elements :
  forall (G T : Type) (Gen : Generator G T) (R : Relocatable G)
         (s : Stream G) (l : list T),
    tag s = Finite ->
    StreamProduces s l ->
    StreamProduces (Stream_copy s) l /\
    StreamProduces (Stream_move s) l /\
    eventually (fun fuel => pipe_to_vector fuel (Stream_copy s) to_vector_ctor)
      (Returns l) /\
    eventually (fun fuel => pipe_to_vector fuel (Stream_move s) to_vector_ctor)
      (Returns l).
Proof.
  intros G T Gen R s l Htag Hp.
  assert (Hc : StreamProduces (Stream_copy s) l).
  { unfold StreamProduces. cbn. now rewrite copy_copy. }
  assert (Hm : StreamProduces (Stream_move s) l).
  { unfold StreamProduces. cbn. now rewrite copy_move. }
  repeat split; try assumption;
    apply pipe_to_vector_Produces; assumption.
Qed.

Lemma Stream_copy_and_move_keep_the_elements_witness :
  tag (Stream_container one_to_five) = Finite /\
  StreamProduces (Stream_container one_to_five) one_to_five /\
  eventually
    (fun fuel =>
       pipe_to_vector fuel (Stream_move (Stream_container one_to_five)) to_vector_ctor)
    (Returns one_to_five).
Proof.
  split; [reflexivity|].
  split; [apply Stream_container_Produces|].
  apply (@Stream_copy_and_move_keep_the_elements (ContainerGenerator.t Z) Z _
           ContainerGenerator_Relocatable (Stream_container one_to_five) one_to_five).
  - reflexivity.
  - apply Stream_container_Produces.
Defined.

(** ** [filter] and [map] *)

(** X5: on a finite stream of the elements [l] whose generator survives
    the move constructor (every generator but [PackGenerator]),
    [filter(p)] followed by [to_vector] returns the elements of [l] that
    satisfy [p], in their order. *)
Theorem filter_keeps_the_passing_values :
  forall (G T : Type) (Gen : Generator G T) (R : Relocatable G)
         (s : Stream G) (l : list T) (p : T -> bool),
    tag s = Finite ->
    StreamProduces s l ->
    let filtered := pipe_filter s {| predicate := p |} in
    StreamProduces filtered (List.filter p l) /\
    eventually (fun fuel => pipe_to_vector fuel filtered to_vector_ctor)
      (Returns (List.filter p l)).
Proof.
  intros G T Gen R s l p Htag Hp filtered.
  assert (Hout : StreamProduces filtered (List.filter p l))
    by now apply pipe_filter_Produces.
  split; [exact Hout|].
  apply pipe_to_vector_Produces; [exact Htag | exact Hout].
Qed.

Lemma filter_keeps_the_passing_values_witness :
  tag (Stream_initializer_list one_to_five) = Finite /\
  StreamProduces (Stream_initializer_list one_to_five) one_to_five /\
  eventually
    (fun fuel =>
       pipe_to_vector fuel
         (pipe_filter (Stream_initializer_list one_to_five) {| predicate := Z.odd |})
         to_vector_ctor)
    (Returns [1; 3; 5]%Z).
Proof.
  split; [reflexivity|].
  split; [apply Stream_initializer_list_Produces|].
  apply (@filter_keeps_the_passing_values (ContainerGenerator.t Z) Z _
           ContainerGenerator_Relocatable
           (Stream_initializer_list one_to_five) one_to_five Z.odd).
  - reflexivity.
  - apply Stream_initializer_list_Produces.
Defined.

(** X6: on a finite stream of the elements [l] whose generator survives
    the move constructor (every generator but [PackGenerator]), [map(f)]
    followed by [to_vector] returns [f] of every element of [l], in order
    and as many as [l] has. *)
Theorem map_transforms_every_value :
  forall (G T U : Type) (Gen : Generator G T) (R : Relocatable G)
         (s : Stream G) (l : list T) (f : T -> U),
    tag s = Finite ->
    StreamProduces s l ->
    let mapped := pipe_map s {| transform := f |} in
    StreamProduces mapped (List.map f l) /\
    eventually (fun fuel => pipe_to_vector fuel mapped to_vector_ctor)
      (Returns (List.map f l)) /\
    length (List.map f l) = length l.
Proof.
  intros G T U Gen R s l f Htag Hp mapped.
  assert (Hout : StreamProduces mapped (List.map f l))
    by now apply pipe_map_Produces.
  split; [exact Hout|]. split; [|apply length_map].
  apply pipe_to_vector_Produces; [exact Htag | exact Hout].
Qed.

Lemma map_transforms_every_value_witness :
  tag (Stream_initializer_list [1; 2; 3]%Z) = Finite /\
  StreamProduces (Stream_initializer_list [1; 2; 3]%Z) [1; 2; 3]%Z /\
  eventually
    (fun fuel =>
       pipe_to_vector fuel
         (pipe_map (Stream_initializer_list [1; 2; 3]%Z)
            {| transform := fun v : Z => (v, v) |})
         to_vector_ctor)
    (Returns [(1, 1); (2, 2); (3, 3)]%Z).
Proof.
  split; [reflexivity|].
  split; [apply Stream_initializer_list_Produces|].
  apply (@map_transforms_every_value (ContainerGenerator.t Z) Z (Z * Z) _
           ContainerGenerator_Relocatable
           (Stream_initializer_list [1; 2; 3]%Z) [1; 2; 3]%Z (fun v : Z => (v, v))).
  - reflexivity.
  - apply Stream_initializer_list_Produces.
Defined.

(** X7: a filter whose predicate rejects every value never returns from a
    pull on the stream of a value generator: the loop goes on asking the
    parent, so [nth] on such a stream does not return for any index. *)
Theorem filter_rejecting_everything_never_returns :
  forall (St T : Type) (vg : ValueGenerator St T) (p : T -> bool) (k : N),
    (forall v, p v = false) ->
    let filtered := pipe_filter (Stream_value_generator vg) {| predicate := p |} in
    (forall fuel, call fuel (copy_ctor (generator_ filtered)) = OutOfFuel) /\
    diverges (fun fuel => pipe_nth fuel filtered {| n := k |}).
Proof.
  intros St T [inv st] p k Hp filtered.
  assert (Hloop : forall fuel st',
             FilterGenerator.filter_loop fuel p
               (InfiniteGenerator.ctor {| invoke := inv; captured := st' |})
             = OutOfFuel).
  { induction fuel as [|fuel IH]; intros st'; [reflexivity|].
    cbn. unfold InfiniteGenerator.operator_call. cbn.
    destruct (inv st') as [v st'']. cbn. rewrite Hp. cbn. apply IH. }
  assert (Hcall : forall fuel, call fuel (copy_ctor (generator_ filtered)) = OutOfFuel).
  { intros fuel. cbn. unfold FilterGenerator.operator_call. cbn.
    change (InfiniteGenerator.copy (InfiniteGenerator.move
              (InfiniteGenerator.copy
                 (InfiniteGenerator.ctor {| invoke := inv; captured := st |}))))
      with (InfiniteGenerator.ctor {| invoke := inv; captured := st |}).
    now rewrite Hloop. }
  split; [exact Hcall|].
  intros fuel. unfold pipe_nth. destruct fuel as [|fuel]; cbn [nth_loop n].
  - rewrite (proj2 (N.leb_le 0 k)) by lia. reflexivity.
  - rewrite (proj2 (N.leb_le 0 k)) by lia. now rewrite Hcall.
Qed.

Lemma filter_rejecting_everything_never_returns_witness :
  (forall v : Z, (fun _ : Z => false) v = false) /\
  diverges
    (fun fuel =>
       pipe_nth fuel
         (pipe_filter (Stream_value_generator (counter 1))
            {| predicate := fun _ : Z => false |})
         {| n := 0 |}).
Proof.
  split; [reflexivity|].
  apply (@filter_rejecting_everything_never_returns Z Z (counter 1)
           (fun _ : Z => false) 0%N).
  reflexivity.
Defined.

(** ** [sum], [print_to] and [nth] *)

(** X8: on a finite stream, [sum] throws the "empty stream"
    [IllegalStreamOperation] when the first pull returns nothing;
    otherwise it returns the first value with every later value added to
    it from the left, in pull order. *)
Theorem sum_adds_up_from_the_first_value :
  forall (G T : Type) (Gen : Generator G T) (s : Stream G) (l : list T)
         (plus : T -> T -> T),
    tag s = Finite ->
    StreamDrains s l ->
    eventually (fun fuel => pipe_sum plus fuel s sum_ctor)
      match l with
      | [] =>
          Throws (IllegalStreamOperation
            "Operation 'sum' cannot be performed on empty stream.")
      | first :: rest => Returns (fold_left plus rest first)
      end.
Proof.
  intros G T Gen s l plus Htag (g' & g'' & Hy & Hend).
  unfold pipe_sum. rewrite Htag. destruct l as [|first rest]; cbn in Hy.
  - subst g'. destruct Hend as [f0 Hc]. exists f0. intros f Hf.
    now rewrite Hc by lia.
  - destruct Hy as (g1 & [f0 Hc] & Hy).
    destruct (sum_loop_Yields plus rest _ first Hy Hend) as [f1 Hl].
    exists (Nat.max f0 f1). intros f Hf.
    rewrite Hc by lia. cbn. now rewrite Hl by lia.
Qed.

Lemma sum_adds_up_from_the_first_value_witness :
  tag (Stream_initializer_list one_to_five) = Finite /\
  StreamDrains (Stream_initializer_list one_to_five) one_to_five /\
  eventually
    (fun fuel => pipe_sum Z.add fuel (Stream_initializer_list one_to_five) sum_ctor)
    (Returns 15%Z).
Proof.
  split; [reflexivity|].
  split; [apply Produces_Drains; apply Stream_initializer_list_Produces|].
  apply (@sum_adds_up_from_the_first_value (ContainerGenerator.t Z) Z _
           (Stream_initializer_list one_to_five) one_to_five Z.add).
  - reflexivity.
  - apply Produces_Drains. apply Stream_initializer_list_Produces.
Defined.

Lemma string_app_assoc (a b c : string) :
  ((a ++ b) ++ c = a ++ (b ++ c))%string.
Proof. induction a as [|ch a IH]; cbn; [reflexivity | now rewrite IH]. Qed.

Lemma string_app_nil_r (a : string) : (a ++ "" = a)%string.
Proof. induction a as [|ch a IH]; cbn; [reflexivity | now rewrite IH]. Qed.

Lemma print_to_loop_Yields {G T : Type} `{Generator G T} (show : T -> string)
  (delim : string) (l : list T) :
  forall (g g' g'' : G) (os : string),
    Yields g l g' -> pulls g' None g'' ->
    eventually (fun f => print_to_loop show f delim os g)
      (os ++ join_tail delim (List.map show l))%string.
Proof.
  induction l as [|v l IH]; intros g g' g'' os Hy Hend; simpl in Hy.
  - subst g'. destruct Hend as [f0 Hc]. fuel_step f0.
    rewrite Hc by lia. cbn. now rewrite string_app_nil_r.
  - destruct Hy as (g1 & [f0 Hc] & Hy).
    destruct (IH g1 g' g'' (os ++ delim ++ show v)%string Hy Hend) as [f1 Hl].
    fuel_step (Nat.max f0 f1).
    rewrite Hc by lia. cbn. rewrite Hl by lia.
    now rewrite !string_app_assoc.
Qed.

(** X9: on a finite stream, [print_to] appends to the sink the values in
    pull order with the delimiter between neighbours and nowhere else: no
    delimiter before the first value or after the last, and nothing at all
    for an empty stream. *)
Theorem print_to_joins_the_values :
  forall (G T : Type) (Gen : Generator G T) (s : Stream G) (l : list T)
         (show : T -> string) (props : print_to),
    tag s = Finite ->
    StreamDrains s l ->
    eventually (fun fuel => pipe_print_to show fuel s props)
      (Returns (ostream props ++ join (delimiter props) (List.map show l))%string) /\
    (l = [] ->
     eventually (fun fuel => pipe_print_to show fuel s props)
       (Returns (ostream props))).
Proof.
  intros G T Gen s l show props Htag (g' & g'' & Hy & Hend).
  assert (Hmain :
    eventually (fun fuel => pipe_print_to show fuel s props)
      (Returns (ostream props ++ join (delimiter props) (List.map show l))%string)).
  { unfold pipe_print_to. rewrite Htag. destruct l as [|first rest]; cbn in Hy.
    - subst g'. destruct Hend as [f0 Hc]. exists f0. intros f Hf.
      rewrite Hc by lia. cbn. now rewrite string_app_nil_r.
    - destruct Hy as (g1 & [f0 Hc] & Hy).
      destruct (print_to_loop_Yields show (delimiter props) rest _
                  (ostream props ++ show first)%string Hy Hend) as [f1 Hl].
      exists (Nat.max f0 f1). intros f Hf.
      rewrite Hc by lia. cbn. rewrite Hl by lia.
      now rewrite string_app_assoc. }
  split; [exact Hmain|].
  intros ->. cbn in Hmain. now rewrite string_app_nil_r in Hmain.
Qed.

Lemma print_to_joins_the_values_witness :
  tag (Stream_initializer_list one_to_five) = Finite /\
  StreamDrains (Stream_initializer_list one_to_five) one_to_five /\
  eventually
    (fun fuel =>
       pipe_print_to show_Z fuel (Stream_initializer_list one_to_five)
         (print_to_ctor "" (Some "_"%string)))
    (Returns "1_2_3_4_5"%string).
Proof.
  split; [reflexivity|].
  split; [apply Produces_Drains; apply Stream_initializer_list_Produces|].
  apply (@print_to_joins_the_values (ContainerGenerator.t Z) Z _
           (Stream_initializer_list one_to_five) one_to_five show_Z
           (print_to_ctor "" (Some "_"%string))).
  - reflexivity.
  - apply Produces_Drains. apply Stream_initializer_list_Produces.
Defined.

Lemma Yields_app_inv {G T : Type} `{Generator G T} (l1 l2 : list T) :
  forall g g' : G,
    Yields g (l1 ++ l2) g' -> exists g1, Yields g l1 g1 /\ Yields g1 l2 g'.
Proof.
  induction l1 as [|v l1 IH]; intros g g' Hy; cbn in Hy.
  - exists g. split; [reflexivity | exact Hy].
  - destruct Hy as (g0 & Hp & Hy). destruct (IH g0 g' Hy) as (g1 & H1 & H2).
    exists g1. split; [|exact H2]. exists g0. split; assumption.
Qed.

(** X10: on a finite stream of the elements [l], [nth(k)] returns element
    [k] of [l], counted from 0, and throws the "not enough elements"
    [IllegalStreamOperation] when [l] has no such element. *)
Theorem nth_indexes_the_elements :
  forall (G T : Type) (Gen : Generator G T) (s : Stream G) (l : list T) (k : N),
    (k <= SIZE_MAX)%N ->
    (N.of_nat (length l) <= SIZE_MAX)%N ->
    StreamDrains s l ->
    eventually (fun fuel => pipe_nth fuel s {| n := k |})
      match nth_error l (N.to_nat k) with
      | Some v => Returns v
      | None =>
          Throws (IllegalStreamOperation
            "Stream doesn't contain enough elements to perform operation 'nth'.")
      end.
Proof.
  intros G T Gen s l k Hk Hlen Hd.
  destruct (nth_error l (N.to_nat k)) as [v|] eqn:Hnth.
  - destruct (nth_error_split l (N.to_nat k) Hnth) as (l1 & l2 & -> & Hl1).
    destruct Hd as (g' & g'' & Hy & _).
    replace (l1 ++ v :: l2) with ((l1 ++ [v]) ++ l2) in Hy
      by now rewrite <- app_assoc.
    destruct (Yields_app_inv _ _ _ _ Hy) as (g1 & Hy1 & _).
    rewrite length_app in Hlen. cbn [length] in Hlen.
    apply (@pipe_nth_reaches G T Gen s l1 v g1 k); [lia | exact Hy1 | lia].
  - apply nth_error_None in Hnth.
    apply (@pipe_nth_runs_dry G T Gen s l k); [exact Hk | exact Hd | lia].
Qed.

Lemma nth_indexes_the_elements_witness :
  (3 <= SIZE_MAX)%N /\
  (N.of_nat (length one_to_five) <= SIZE_MAX)%N /\
  StreamDrains (Stream_initializer_list one_to_five) one_to_five /\
  eventually
    (fun fuel => pipe_nth fuel (Stream_initializer_list one_to_five) {| n := 3 |})
    (Returns 4%Z).
Proof.
  split; [vm_compute; discriminate|].
  split; [vm_compute; discriminate|].
  split; [apply Produces_Drains; apply Stream_initializer_list_Produces|].
  apply (@nth_indexes_the_elements (ContainerGenerator.t Z) Z _
           (Stream_initializer_list one_to_five) one_to_five 3%N).
  - vm_compute; discriminate.
  - vm_compute; discriminate.
  - apply Produces_Drains. apply Stream_initializer_list_Produces.
Defined.

(** ** Value generators *)

Lemma values_from_succ {St T : Type} (inv : St -> T * St) :
  forall (k : nat) (st : St),
    values_from inv st (S k) =
      values_from inv st k ++ [fst (inv (state_after inv st k))].
Proof.
  induction k as [|k IH]; intros st.
  - cbn. now destruct (inv st).
  - cbn [values_from state_after] in *. destruct (inv st) as [v st'] eqn:E.
    cbn [snd]. specialize (IH st'). cbn [values_from] in IH.
    destruct (inv st') as [v' st''] eqn:E'. rewrite IH. reflexivity.
Qed.

Lemma values_from_app {St T : Type} (inv : St -> T * St) :
  forall (a k : nat) (st : St),
    values_from inv st (a + k) =
      values_from inv st a ++ values_from inv (state_after inv st a) k.
Proof.
  induction a as [|a IH]; intros k st; [reflexivity|].
  cbn [Nat.add values_from state_after]. destruct (inv st) as [v st'].
  cbn [snd]. now rewrite IH.
Qed.

Lemma InfiniteGenerator_Yields {St T : Type} (inv : St -> T * St) :
  forall (k : nat) (st : St),
    Yields (InfiniteGenerator.ctor {| invoke := inv; captured := st |})
           (values_from inv st k)
           (InfiniteGenerator.ctor
              {| invoke := inv; captured := state_after inv st k |}).
Proof.
  induction k as [|k IH]; intros st; [reflexivity|].
  cbn [values_from state_after]. destruct (inv st) as [v st'] eqn:E. cbn [snd].
  exists (InfiniteGenerator.ctor {| invoke := inv; captured := st' |}).
  split; [|apply IH].
  exists 0. intros f _. cbn. unfold InfiniteGenerator.operator_call. cbn.
  now rewrite E.
Qed.

(** X11: on the infinite stream of a value generator, [nth(k)] with
    [k < SIZE_MAX] returns the value of invocation [k + 1], the last of the
    first [k + 1] values, and the generator is invoked exactly [k + 1]
    times by the loop. *)
Theorem nth_on_a_value_generator :
  forall (St T : Type) (vg : ValueGenerator St T) (k : N),
    (k < SIZE_MAX)%N ->
    eventually (fun fuel => pipe_nth fuel (Stream_value_generator vg) {| n := k |})
      (Returns (value_at vg (N.to_nat k))) /\
    values vg (S (N.to_nat k)) = values vg (N.to_nat k) ++ [value_at vg (N.to_nat k)] /\
    eventually
      (fun fuel =>
         nth_loop fuel k 0 None (copy_ctor (generator_ (Stream_value_generator vg))))
      ((k + 1)%N, Some (value_at vg (N.to_nat k)),
       InfiniteGenerator.ctor
         {| invoke := invoke vg;
            captured := state_after (invoke vg) (captured vg) (S (N.to_nat k)) |}).
Proof.
  intros St T [inv st] k Hk. unfold value_at, values. cbn [invoke captured].
  pose proof (InfiniteGenerator_Yields inv (S (N.to_nat k)) st) as Hy.
  rewrite values_from_succ in Hy.
  split; [|split].
  - apply (@pipe_nth_reaches _ _ _
             (Stream_value_generator {| invoke := inv; captured := st |})
             (values_from inv st (N.to_nat k)) _ _ k Hk Hy).
    rewrite values_from_length. lia.
  - apply values_from_succ.
  - apply (@nth_loop_reaches _ _ _ k (values_from inv st (N.to_nat k)) Hk
             _ _ 0%N None _ Hy).
    rewrite values_from_length. lia.
Qed.

Lemma nth_on_a_value_generator_witness :
  (3 < SIZE_MAX)%N /\
  eventually
    (fun fuel => pipe_nth fuel (Stream_value_generator (counter 1)) {| n := 3 |})
    (Returns 4%Z).
Proof.
  split; [reflexivity|].
  apply (@nth_on_a_value_generator Z Z (counter 1) 3%N). reflexivity.
Defined.

(** ** [get] *)

(** X12: [get(0)] returns the empty vector on every stream, also on one
    that never ends or whose generator cannot be pulled: the generator
    behind it returns [std::nullopt] at once and leaves its parent alone. *)
Theorem get_zero_is_empty :
  forall (G T : Type) (Gen : Generator G T) (s : Stream G) (fuel : nat),
    let taken := pipe_get s {| get_amount := 0 |} in
    pipe_to_vector (S fuel) taken to_vector_ctor = Ret (Returns []) /\
    call fuel (copy_ctor (generator_ taken)) =
      Ret (None, copy_ctor (generator_ taken)).
Proof.
  intros G T Gen s fuel taken. split; reflexivity.
Qed.

Lemma GetGenerator_pulls_Some_inv {G T : Type} `{Generator G T}
  (this this' : GetGenerator.t G) (v : T) :
  pulls this (Some v) this' ->
  (GetGenerator.amount_got_ this < GetGenerator.amount_to_get_ this)%N /\
  GetGenerator.amount_to_get_ this' = GetGenerator.amount_to_get_ this /\
  GetGenerator.amount_got_ this' = size_t_incr (GetGenerator.amount_got_ this).
Proof.
  intros [f0 Hc]. specialize (Hc f0 (le_n _)). cbn in Hc.
  unfold GetGenerator.operator_call in Hc.
  destruct (N.leb_spec (GetGenerator.amount_to_get_ this)
              (GetGenerator.amount_got_ this)) as [Hle|Hlt]; [discriminate|].
  destruct (call f0 (GetGenerator.parent_gen_ this)) as [[o p]| |]; cbn in Hc;
    try discriminate.
  inversion Hc; subst. cbn. repeat split. exact Hlt.
Qed.

Lemma GetGenerator_Yields_count {G T : Type} `{Generator G T} (l : list T) :
  forall this this' : GetGenerator.t G,
    (GetGenerator.amount_to_get_ this <= SIZE_MAX)%N ->
    (GetGenerator.amount_got_ this <= GetGenerator.amount_to_get_ this)%N ->
    Yields this l this' ->
    GetGenerator.amount_to_get_ this' = GetGenerator.amount_to_get_ this /\
    GetGenerator.amount_got_ this' =
      (GetGenerator.amount_got_ this + N.of_nat (length l))%N /\
    (GetGenerator.amount_got_ this' <= GetGenerator.amount_to_get_ this)%N.
Proof.
  induction l as [|v l IH]; intros this this' Ha Hgot Hy; cbn in Hy.
  - subst this'. cbn. repeat split; lia.
  - destruct Hy as (g1 & Hp & Hy).
    destruct (GetGenerator_pulls_Some_inv Hp) as (Hlt & Ha1 & Hg1).
    rewrite size_t_incr_small in Hg1 by lia.
    destruct (IH g1 this') as (Ha' & Hg' & Hle); [lia | lia | exact Hy |].
    cbn [length]. rewrite Nat2N.inj_succ. repeat split; lia.
Qed.

(** X13: a [get(a)] generator never returns more than [a] values, whatever
    its parent does: after it has returned the values of [l] its counter
    stands at the length of [l], which is at most [a]. *)
Theorem get_never_exceeds_its_amount :
  forall (G T : Type) (Gen : Generator G T) (parent : G) (a : N) (l : list T)
         (this' : GetGenerator.t G),
    (a <= SIZE_MAX)%N ->
    Yields (GetGenerator.ctor parent a) l this' ->
    (N.of_nat (length l) <= a)%N /\
    GetGenerator.amount_got_ this' = N.of_nat (length l) /\
    GetGenerator.amount_to_get_ this' = a.
Proof.
  intros G T Gen parent a l this' Ha Hy.
  destruct (GetGenerator_Yields_count l (GetGenerator.ctor parent a) this')
    as (Ha' & Hg' & Hle); [exact Ha | cbn; lia | exact Hy |].
  cbn in Ha', Hg', Hle. repeat split; lia.
Qed.

Lemma get_never_exceeds_its_amount_witness :
  (2 <= SIZE_MAX)%N /\
  exists this',
    Yields (GetGenerator.ctor (ContainerGenerator.ctor one_to_five) 2) [1; 2]%Z this' /\
    GetGenerator.amount_got_ this' = 2%N.
Proof.
  split; [vm_compute; discriminate|].
  assert (Hy : Yields (GetGenerator.ctor (ContainerGenerator.ctor one_to_five) 2)
                 [1; 2]%Z
                 {| GetGenerator.parent_gen_ :=
                      {| ContainerGenerator.container_ := one_to_five;
                         ContainerGenerator.current_ := 2;
                         ContainerGenerator.end_ := 5 |};
                    GetGenerator.amount_to_get_ := 2;
                    GetGenerator.amount_got_ := 2 |}).
  { eexists. split; [exists 0; intros f _; reflexivity|].
    eexists. split; [exists 0; intros f _; reflexivity|].
    reflexivity. }
  eexists. split; [exact Hy|].
  apply (@get_never_exceeds_its_amount _ Z _ _ 2%N [1; 2]%Z _
           ltac:(vm_compute; discriminate) Hy).
Defined.

(** ** Combinators in a row *)

(** X14: on a finite stream whose generator survives the move
    constructor (every generator but [PackGenerator]), two [skip]s in a
    row skip the sum of their amounts, also when that sum does not fit a
    [size_t]. *)
Theorem skip_after_skip_adds_up :
  forall (G T : Type) (Gen : Generator G T) (R : Relocatable G)
         (s : Stream G) (l : list T) (a b : N),
    tag s = Finite ->
    (a <= SIZE_MAX)%N ->
    (b <= SIZE_MAX)%N ->
    StreamProduces s l ->
    eventually
      (fun fuel =>
         pipe_to_vector fuel
           (pipe_skip (pipe_skip s {| skip_amount := a |}) {| skip_amount := b |})
           to_vector_ctor)
      (Returns (skipn (N.to_nat a + N.to_nat b) l)).
Proof.
  intros G T Gen R s l a b Htag Ha Hb Hp.
  apply pipe_to_vector_Produces; [exact Htag|].
  rewrite Nat.add_comm, <- skipn_skipn.
  apply pipe_skip_Produces; [exact Hb|].
  now apply pipe_skip_Produces.
Qed.

Lemma skip_after_skip_adds_up_witness :
  tag (Stream_initializer_list one_to_five) = Finite /\
  (1 <= SIZE_MAX)%N /\ (2 <= SIZE_MAX)%N /\
  StreamProduces (Stream_initializer_list one_to_five) one_to_five /\
  eventually
    (fun fuel =>
       pipe_to_vector fuel
         (pipe_skip (pipe_skip (Stream_initializer_list one_to_five)
                       {| skip_amount := 1 |}) {| skip_amount := 2 |})
         to_vector_ctor)
    (Returns [4; 5]%Z).
Proof.
  split; [reflexivity|].
  split; [vm_compute; discriminate|].
  split; [vm_compute; discriminate|].
  split; [apply Stream_initializer_list_Produces|].
  apply (@skip_after_skip_adds_up (ContainerGenerator.t Z) Z _
           ContainerGenerator_Relocatable
           (Stream_initializer_list one_to_five) one_to_five 1%N 2%N).
  - reflexivity.
  - vm_compute; discriminate.
  - vm_compute; discriminate.
  - apply Stream_initializer_list_Produces.
Defined.

(** X15: on a stream of the elements [l] whose generator survives the
    move constructor (every generator but [PackGenerator]), [skip(a)]
    followed by [get(b)] cuts the slice out of [l]: the [b] elements that
    follow the first [a], or as many of them as there are. *)
Theorem skip_then_get_is_a_slice :
  forall (G T : Type) (Gen : Generator G T) (R : Relocatable G)
         (s : Stream G) (l : list T) (a b : N),
    (a <= SIZE_MAX)%N ->
    (b <= SIZE_MAX)%N ->
    StreamProduces s l ->
    let out := firstn (N.to_nat b) (skipn (N.to_nat a) l) in
    eventually
      (fun fuel =>
         pipe_to_vector fuel
           (pipe_get (pipe_skip s {| skip_amount := a |}) {| get_amount := b |})
           to_vector_ctor)
      (Returns out) /\
    length out = Nat.min (N.to_nat b) (length l - N.to_nat a).
Proof.
  intros G T Gen R s l a b Ha Hb Hp out. split.
  - apply pipe_to_vector_Produces; [reflexivity|].
    apply pipe_get_Produces; [exact Hb|].
    now apply pipe_skip_Produces.
  - unfold out. now rewrite length_firstn, length_skipn.
Qed.

Lemma skip_then_get_is_a_slice_witness :
  (1 <= SIZE_MAX)%N /\ (3 <= SIZE_MAX)%N /\
  StreamProduces (Stream_initializer_list one_to_five) one_to_five /\
  eventually
    (fun fuel =>
       pipe_to_vector fuel
         (pipe_get (pipe_skip (Stream_initializer_list one_to_five)
                      {| skip_amount := 1 |}) {| get_amount := 3 |})
         to_vector_ctor)
    (Returns [2; 3; 4]%Z).
Proof.
  split; [vm_compute; discriminate|].
  split; [vm_compute; discriminate|].
  split; [apply Stream_initializer_list_Produces|].
  apply (@skip_then_get_is_a_slice (ContainerGenerator.t Z) Z _
           ContainerGenerator_Relocatable
           (Stream_initializer_list one_to_five) one_to_five 1%N 3%N).
  - vm_compute; discriminate.
  - vm_compute; discriminate.
  - apply Stream_initializer_list_Produces.
Defined.

(** X16: on a stream of the elements [l] whose generator survives the
    move constructor (every generator but [PackGenerator]), two [get]s in
    a row take the smaller of their amounts. *)
Theorem get_after_get_takes_the_smaller :
  forall (G T : Type) (Gen : Generator G T) (R : Relocatable G)
         (s : Stream G) (l : list T) (a b : N),
    (a <= SIZE_MAX)%N ->
    (b <= SIZE_MAX)%N ->
    StreamProduces s l ->
    eventually
      (fun fuel =>
         pipe_to_vector fuel
           (pipe_get (pipe_get s {| get_amount := a |}) {| get_amount := b |})
           to_vector_ctor)
      (Returns (firstn (N.to_nat (N.min a b)) l)).
Proof.
  intros G T Gen R s l a b Ha Hb Hp.
  apply pipe_to_vector_Produces; [reflexivity|].
  replace (firstn (N.to_nat (N.min a b)) l)
    with (firstn (N.to_nat b) (firstn (N.to_nat a) l)).
  - apply pipe_get_Produces; [exact Hb|].
    now apply pipe_get_Produces.
  - rewrite firstn_firstn. f_equal. lia.
Qed.

Lemma get_after_get_takes_the_smaller_witness :
  (4 <= SIZE_MAX)%N /\ (2 <= SIZE_MAX)%N /\
  StreamProduces (Stream_initializer_list one_to_five) one_to_five /\
  eventually
    (fun fuel =>
       pipe_to_vector fuel
         (pipe_get (pipe_get (Stream_initializer_list one_to_five)
                      {| get_amount := 4 |}) {| get_amount := 2 |})
         to_vector_ctor)
    (Returns [1; 2]%Z).
Proof.
  split; [vm_compute; discriminate|].
  split; [vm_compute; discriminate|].
  split; [apply Stream_initializer_list_Produces|].
  apply (@get_after_get_takes_the_smaller (ContainerGenerator.t Z) Z _
           ContainerGenerator_Relocatable
           (Stream_initializer_list one_to_five) one_to_five 4%N 2%N).
  - vm_compute; discriminate.
  - vm_compute; discriminate.
  - apply Stream_initializer_list_Produces.
Defined.

(** ** Copies of generators that have been pulled *)

Lemma ContainerGenerator_call_container {T : Type} (fuel : nat)
  (g g' : ContainerGenerator.t T) (opt : option T) :
  call fuel g = Ret (opt, g') ->
  ContainerGenerator.container_ g' = ContainerGenerator.container_ g.
Proof.
  cbn. unfold ContainerGenerator.operator_call.
  destruct (ContainerGenerator.current_ g =? ContainerGenerator.end_ g).
  - intros E; inversion E; reflexivity.
  - destruct (nth_error _ _); [|discriminate].
    intros E; inversion E; reflexivity.
Qed.

Lemma skip_loop_container {T : Type} (a : N) :
  forall (fuel : nat) (i i' : N) (p p' : ContainerGenerator.t T),
    SkipGenerator.skip_loop fuel a i p = Ret (i', p') ->
    ContainerGenerator.container_ p' = ContainerGenerator.container_ p.
Proof.
  induction fuel as [|fuel IH]; intros i i' p p'; cbn [SkipGenerator.skip_loop];
    destruct (i <? a)%N; try discriminate;
    try (intros E; inversion E; reflexivity).
  destruct (call fuel p) as [[[v|] q]| |] eqn:Hc; cbn; try discriminate.
  - intros E. rewrite (IH _ _ _ _ E).
    now apply ContainerGenerator_call_container in Hc.
  - intros E. inversion E; subst.
    now apply ContainerGenerator_call_container in Hc.
Qed.

(** X17: the defaulted copy constructor of [SkipGenerator] copies
    [skipped_] and lets the parent copy itself.  Over a
    [ContainerGenerator], a copy taken after any pull has the skip phase
    marked done and a rewound parent: it produces the whole container, the
    skipped elements included. *)
Theorem SkipGenerator_copy_after_a_pull_skips_nothing :
  forall (T : Type) (this this' : SkipGenerator.t (ContainerGenerator.t T))
         (fuel : nat) (opt : option T),
    call fuel this = Ret (opt, this') ->
    SkipGenerator.skipped_ (copy_ctor this') = true /\
    Produces (copy_ctor this')
      (ContainerGenerator.container_ (SkipGenerator.parent_gen_ this)).
Proof.
  intros T this this' fuel opt Hcall.
  pose proof (SkipGenerator_call_marks _ _ Hcall) as Hs.
  assert (Hc : ContainerGenerator.container_ (SkipGenerator.parent_gen_ this') =
               ContainerGenerator.container_ (SkipGenerator.parent_gen_ this)).
  { revert Hcall. cbn. unfold SkipGenerator.operator_call.
    destruct (SkipGenerator.skipped_ this); cbn.
    - destruct (ContainerGenerator.operator_call (SkipGenerator.parent_gen_ this))
        as [[o p]| |] eqn:Hp; cbn; try discriminate.
      intros E; inversion E; subst. cbn.
      exact (@ContainerGenerator_call_container T fuel _ _ _ Hp).
    - destruct (SkipGenerator.skip_loop fuel _ 0 _) as [[i p]| |] eqn:Hl; cbn;
        try discriminate.
      apply skip_loop_container in Hl.
      destruct (i <? _)%N.
      + intros E; inversion E; subst. exact Hl.
      + destruct (ContainerGenerator.operator_call p) as [[o p']| |] eqn:Hp; cbn;
          try discriminate.
        intros E; inversion E; subst. cbn.
        pose proof (@ContainerGenerator_call_container T fuel _ _ _ Hp) as Hq.
        congruence. }
  destruct this' as [p' a' s']. cbn in Hs, Hc. subst s'.
  split; [reflexivity|].
  rewrite <- Hc. cbn. unfold SkipGenerator.copy. cbn.
  apply SkipGenerator_skipped_Produces.
  apply (ContainerGenerator_Produces (ContainerGenerator.container_ p')).
Qed.

Lemma SkipGenerator_copy_after_a_pull_skips_nothing_witness :
  call 3 (SkipGenerator.ctor (ContainerGenerator.ctor one_to_five) 2) =
    Ret (Some 3%Z,
         {| SkipGenerator.parent_gen_ :=
              {| ContainerGenerator.container_ := one_to_five;
                 ContainerGenerator.current_ := 3;
                 ContainerGenerator.end_ := 5 |};
            SkipGenerator.amount_to_skip_ := 2;
            SkipGenerator.skipped_ := true |}) /\
  Produces
    (copy_ctor
       {| SkipGenerator.parent_gen_ :=
            {| ContainerGenerator.container_ := one_to_five;
               ContainerGenerator.current_ := 3;
               ContainerGenerator.end_ := 5 |};
          SkipGenerator.amount_to_skip_ := 2;
          SkipGenerator.skipped_ := true |})
    one_to_five.
Proof.
  split; [reflexivity|].
  exact (proj2 (@SkipGenerator_copy_after_a_pull_skips_nothing Z
                  (SkipGenerator.ctor (ContainerGenerator.ctor one_to_five) 2)
                  {| SkipGenerator.parent_gen_ :=
                       {| ContainerGenerator.container_ := one_to_five;
                          ContainerGenerator.current_ := 3;
                          ContainerGenerator.end_ := 5 |};
                     SkipGenerator.amount_to_skip_ := 2;
                     SkipGenerator.skipped_ := true |}
                  3 (Some 3%Z) eq_refl)).
Defined.

(** X18: the defaulted copy constructor of [GetGenerator] copies
    [amount_got_] and lets the parent copy itself.  Over a
    [ContainerGenerator], a copy of a generator that has handed out [got]
    of its [a] values starts again at the beginning of the container and
    produces its first [a - got] elements. *)
Theorem GetGenerator_copy_keeps_the_count :
  forall (T : Type) (this : GetGenerator.t (ContainerGenerator.t T)),
    (GetGenerator.amount_to_get_ this <= SIZE_MAX)%N ->
    (GetGenerator.amount_got_ this <= GetGenerator.amount_to_get_ this)%N ->
    Produces (copy_ctor this)
      (firstn
         (N.to_nat (GetGenerator.amount_to_get_ this - GetGenerator.amount_got_ this))
         (ContainerGenerator.container_ (GetGenerator.parent_gen_ this))).
Proof.
  intros T [p a got] Ha Hgot. cbn in *. unfold GetGenerator.copy. cbn.
  apply GetGenerator_Produces; [exact Ha | exact Hgot |].
  apply (ContainerGenerator_Produces (ContainerGenerator.container_ p)).
Qed.

Lemma GetGenerator_copy_keeps_the_count_witness :
  (3 <= SIZE_MAX)%N /\ (2 <= 3)%N /\
  Produces
    (copy_ctor
       {| GetGenerator.parent_gen_ :=
            {| ContainerGenerator.container_ := one_to_five;
               ContainerGenerator.current_ := 2;
               ContainerGenerator.end_ := 5 |};
          GetGenerator.amount_to_get_ := 3;
          GetGenerator.amount_got_ := 2 |})
    [1%Z].
Proof.
  split; [vm_compute; discriminate|].
  split; [vm_compute; discriminate|].
  apply (@GetGenerator_copy_keeps_the_count Z
           {| GetGenerator.parent_gen_ :=
                {| ContainerGenerator.container_ := one_to_five;
                   ContainerGenerator.current_ := 2;
                   ContainerGenerator.end_ := 5 |};
              GetGenerator.amount_to_get_ := 3;
              GetGenerator.amount_got_ := 2 |}).
  - vm_compute; discriminate.
  - vm_compute; discriminate.
Defined.

(** ** [group] at its edges *)

(** X19: on a finite stream whose generator survives the move
    constructor (every generator but [PackGenerator]), [group(g)] returns
    no group at all when the stream is empty, and one group holding all
    the elements when there are at most [g] of them. *)
Theorem group_of_a_short_stream :
  forall (G T : Type) (Gen : Generator G T) (R : Relocatable G)
         (s : Stream G) (l : list T) (g : N),
    tag s = Finite ->
    (1 <= g)%N ->
    (g <= SIZE_MAX)%N ->
    StreamProduces s l ->
    length l <= N.to_nat g ->
    eventually
      (fun fuel => pipe_to_vector fuel (pipe_group s (group_ctor g)) to_vector_ctor)
      (Returns match l with [] => [] | _ :: _ => [l] end).
Proof.
  intros G T Gen R s l g Htag Hpos Hg Hp Hlen.
  apply pipe_to_vector_Produces; [exact Htag|].
  replace (match l with [] => [] | _ :: _ => [l] end) with (chunks (N.to_nat g) l).
  - now apply pipe_group_Produces.
  - unfold chunks. destruct l as [|v l]; [reflexivity|].
    cbn [length chunks_upto].
    rewrite firstn_all2, skipn_all2 by exact Hlen.
    now rewrite chunks_upto_nil.
Qed.

Lemma group_of_a_short_stream_witness :
  tag (Stream_initializer_list [1; 2]%Z) = Finite /\
  (1 <= 3)%N /\ (3 <= SIZE_MAX)%N /\
  StreamProduces (Stream_initializer_list [1; 2]%Z) [1; 2]%Z /\
  length [1; 2]%Z <= N.to_nat 3 /\
  eventually
    (fun fuel =>
       pipe_to_vector fuel
         (pipe_group (Stream_initializer_list [1; 2]%Z) (group_ctor 3)) to_vector_ctor)
    (Returns [[1; 2]]%Z).
Proof.
  split; [reflexivity|].
  split; [vm_compute; discriminate|].
  split; [vm_compute; discriminate|].
  split; [apply Stream_initializer_list_Produces|].
  split; [vm_compute; lia|].
  apply (@group_of_a_short_stream (ContainerGenerator.t Z) Z _
           ContainerGenerator_Relocatable
           (Stream_initializer_list [1; 2]%Z) [1; 2]%Z 3%N).
  - reflexivity.
  - vm_compute; discriminate.
  - vm_compute; discriminate.
  - apply Stream_initializer_list_Produces.
  - vm_compute; lia.
Defined.

(** ** Combinators over a value generator *)
Section OverYields.
Context {G T : Type} `{Generator G T}.

Lemma GetGenerator_Produces_of_Yields (a : N) (l : list T) :
  (a <= SIZE_MAX)%N ->
  forall (p p' : G) (got : N),
    (got + N.of_nat (length l) = a)%N ->
    Yields p l p' ->
    Produces {| GetGenerator.parent_gen_ := p;
                GetGenerator.amount_to_get_ := a;
                GetGenerator.amount_got_ := got |} l.
Proof.
  intros Ha. induction l as [|v l IH]; intros p p' got Hgot Hy; cbn in Hy.
  - apply Produces_nil. apply GetGenerator_done. cbn in Hgot. lia.
  - destruct Hy as (p1 & Hpull & Hy).
    cbn [length] in Hgot. rewrite Nat2N.inj_succ in Hgot.
    apply Produces_cons. eexists. split.
    + apply GetGenerator_pulls; [lia | exact Ha | exact Hpull].
    + apply (IH p1 p'); [lia | exact Hy].
Qed.

Lemma skip_loop_Yields (a : N) (l : list T) :
  (a <= SIZE_MAX)%N ->
  forall (p p' : G) (i : N),
    (i + N.of_nat (length l) = a)%N ->
    Yields p l p' ->
    eventually (fun f => SkipGenerator.skip_loop f a i p) (a, p').
Proof.
  intros Ha. induction l as [|v l IH]; intros p p' i Hi Hy; cbn in Hy.
  - subst p'. cbn in Hi. exists 0. intros f _.
    rewrite skip_loop_exit by lia. f_equal. f_equal. lia.
  - destruct Hy as (p1 & [f0 Hc] & Hy).
    cbn [length] in Hi. rewrite Nat2N.inj_succ in Hi.
    destruct (IH p1 p' (i + 1)%N ltac:(lia) Hy) as [f1 Hl].
    exists (S (Nat.max f0 f1)). intros [|f] Hf; [lia|].
    cbn [SkipGenerator.skip_loop].
    rewrite (proj2 (N.ltb_lt i a)) by lia.
    rewrite Hc by lia. cbn [bind]. rewrite size_t_incr_small by lia.
    apply Hl. lia.
Qed.

Lemma SkipGenerator_skipped_Yields (a : N) (l : list T) :
  forall p p' : G,
    Yields p l p' ->
    Yields {| SkipGenerator.parent_gen_ := p;
              SkipGenerator.amount_to_skip_ := a;
              SkipGenerator.skipped_ := true |} l
           {| SkipGenerator.parent_gen_ := p';
              SkipGenerator.amount_to_skip_ := a;
              SkipGenerator.skipped_ := true |}.
Proof.
  induction l as [|v l IH]; intros p p' Hy; cbn in Hy.
  - now subst p'.
  - destruct Hy as (p1 & Hpull & Hy). eexists. split.
    + apply SkipGenerator_skipped_pulls. exact Hpull.
    + now apply IH.
Qed.

(** A skip generator over a parent that yields [l1 ++ l2], with [l1] as
    long as the amount to skip, yields [l2]. *)
Lemma SkipGenerator_Yields (a : N) (l1 l2 : list T) (p p1 p2 : G) :
  (a <= SIZE_MAX)%N ->
  N.of_nat (length l1) = a ->
  Yields p l1 p1 -> Yields p1 l2 p2 ->
  exists g',
    Yields {| SkipGenerator.parent_gen_ := p;
              SkipGenerator.amount_to_skip_ := a;
              SkipGenerator.skipped_ := false |} l2 g'.
Proof.
  intros Ha Hlen Hy1 Hy2. destruct l2 as [|v l2]; cbn in Hy2.
  - eexists. reflexivity.
  - destruct Hy2 as (q & Hpull & Hy2).
    pose proof (@skip_loop_Yields a l1 Ha p p1 0%N ltac:(lia) Hy1) as Hloop.
    eexists. eexists. split.
    + eapply SkipGenerator_first_pull_full; [exact Hloop | lia | exact Hpull].
    + apply SkipGenerator_skipped_Yields. exact Hy2.
Qed.

End OverYields.

(** X20: [skip] works on a stream that never ends: on the stream of a
    value generator, [skip(a)] followed by [get(k)] returns the [k] values
    that follow the first [a]. *)
Theorem skip_then_get_on_a_value_generator :
  forall (St T : Type) (vg : ValueGenerator St T) (a k : N),
    (a <= SIZE_MAX)%N ->
    (k <= SIZE_MAX)%N ->
    let out := skipn (N.to_nat a) (values vg (N.to_nat a + N.to_nat k)) in
    eventually
      (fun fuel =>
         pipe_to_vector fuel
           (pipe_get (pipe_skip (Stream_value_generator vg) {| skip_amount := a |})
              {| get_amount := k |})
           to_vector_ctor)
      (Returns out) /\
    length out = N.to_nat k.
Proof.
  intros St T [inv st] a k Ha Hk out.
  assert (Hout : out = values_from inv (state_after inv st (N.to_nat a)) (N.to_nat k)).
  { unfold out, values. cbn [invoke captured]. rewrite values_from_app.
    rewrite skipn_app, skipn_all2 by (rewrite values_from_length; lia).
    rewrite values_from_length, Nat.sub_diag. reflexivity. }
  split; [|rewrite Hout; apply values_from_length].
  apply pipe_to_vector_Produces; [reflexivity|].
  rewrite Hout. unfold StreamProduces.
  pose proof (InfiniteGenerator_Yields inv (N.to_nat a) st) as Hy1.
  pose proof (InfiniteGenerator_Yields inv (N.to_nat k)
                (state_after inv st (N.to_nat a))) as Hy2.
  assert (Hla : N.of_nat (length (values_from inv st (N.to_nat a))) = a)
    by (rewrite values_from_length; lia).
  assert (Hlk : (0 + N.of_nat (length (values_from inv
                    (state_after inv st (N.to_nat a)) (N.to_nat k))) = k)%N)
    by (rewrite values_from_length; lia).
  destruct (SkipGenerator_Yields _ _ _ _ _ Ha Hla Hy1 Hy2) as (g' & Hy).
  exact (GetGenerator_Produces_of_Yields _ Hk _ _ _ Hlk Hy).
Qed.

Lemma skip_then_get_on_a_value_generator_witness :
  (2 <= SIZE_MAX)%N /\ (3 <= SIZE_MAX)%N /\
  eventually
    (fun fuel =>
       pipe_to_vector fuel
         (pipe_get (pipe_skip (Stream_value_generator (counter 1))
                      {| skip_amount := 2 |}) {| get_amount := 3 |})
         to_vector_ctor)
    (Returns [3; 4; 5]%Z).
Proof.
  split; [vm_compute; discriminate|].
  split; [vm_compute; discriminate|].
  apply (@skip_then_get_on_a_value_generator Z Z (counter 1) 2%N 3%N);
    vm_compute; discriminate.
Defined.

Lemma state_after_add {St T : Type} (inv : St -> T * St) :
  forall (a k : nat) (st : St),
    state_after inv st (a + k) = state_after inv (state_after inv st a) k.
Proof.
  induction a as [|a IH]; intros k st; [reflexivity|].
  cbn [Nat.add state_after]. apply IH.
Qed.

Lemma batches_from_concat {St T : Type} (inv : St -> T * St) (g : nat) :
  forall (k : nat) (st : St),
    concat (batches_from inv st g k) = values_from inv st (k * g).
Proof.
  induction k as [|k IH]; intros st; [reflexivity|].
  cbn [batches_from concat Nat.mul]. now rewrite IH, values_from_app.
Qed.

Lemma batches_from_sizes {St T : Type} (inv : St -> T * St) (g : nat) :
  forall (k : nat) (st : St),
    length (batches_from inv st g k) = k /\
    Forall (fun grp => length grp = g) (batches_from inv st g k).
Proof.
  induction k as [|k IH]; intros st; cbn [batches_from].
  - split; [reflexivity | constructor].
  - destruct (IH (state_after inv st g)) as [Hlen Hall]. split.
    + cbn. now rewrite Hlen.
    + constructor; [apply values_from_length | exact Hall].
Qed.

Section GroupOverYields.
Context {G T : Type} `{Generator G T}.

Lemma group_loop_Yields (gs : N) (l : list T) :
  (gs <= SIZE_MAX)%N ->
  forall (p p' : G) (group : list T) (i : N) (v : T),
    (i + 1 + N.of_nat (length l) = gs)%N ->
    Yields p l p' ->
    eventually (fun f => GroupGenerator.group_loop f gs group i v p)
      (group ++ v :: l, p').
Proof.
  intros Hgs. induction l as [|w l IH]; intros p p' group i v Hi Hy; cbn in Hy.
  - subst p'. cbn in Hi. exists 0. intros f _.
    rewrite group_loop_eq, size_t_incr_small by lia.
    now rewrite (proj2 (N.ltb_ge (i + 1) gs)) by lia.
  - destruct Hy as (p1 & [f0 Hc] & Hy).
    cbn [length] in Hi. rewrite Nat2N.inj_succ in Hi.
    destruct (IH p1 p' (group ++ [v]) (i + 1)%N w ltac:(lia) Hy) as [f1 Hl].
    exists (S (Nat.max f0 f1)). intros [|f] Hf; [lia|].
    rewrite group_loop_eq, size_t_incr_small by lia.
    rewrite (proj2 (N.ltb_lt (i + 1) gs)) by lia.
    rewrite Hc by lia. cbn [bind]. rewrite Hl by lia.
    now rewrite <- app_assoc.
Qed.

Lemma GroupGenerator_pulls_full (gs : N) (p p' : G) (v : T) (l : list T) :
  (gs <= SIZE_MAX)%N ->
  (1 + N.of_nat (length l) = gs)%N ->
  Yields p (v :: l) p' ->
  pulls {| GroupGenerator.parent_gen_ := p; GroupGenerator.group_size_ := gs |}
        (Some (v :: l))
        {| GroupGenerator.parent_gen_ := p'; GroupGenerator.group_size_ := gs |}.
Proof.
  intros Hgs Hlen (p1 & [f0 Hc] & Hy).
  destruct (@group_loop_Yields gs l Hgs p1 p' [] 0%N v ltac:(lia) Hy) as [f1 Hl].
  exists (Nat.max f0 f1). intros f Hf.
  cbn. unfold GroupGenerator.operator_call. cbn.
  rewrite Hc by lia. cbn. now rewrite Hl by lia.
Qed.

End GroupOverYields.

Lemma GroupGenerator_Infinite_Yields {St T : Type} (inv : St -> T * St) (gs : N) :
  (1 <= gs)%N -> (gs <= SIZE_MAX)%N ->
  forall (k : nat) (st : St),
    Yields
      {| GroupGenerator.parent_gen_ :=
           InfiniteGenerator.ctor {| invoke := inv; captured := st |};
         GroupGenerator.group_size_ := gs |}
      (batches_from inv st (N.to_nat gs) k)
      {| GroupGenerator.parent_gen_ :=
           InfiniteGenerator.ctor
             {| invoke := inv;
                captured := state_after inv st (k * N.to_nat gs) |};
         GroupGenerator.group_size_ := gs |}.
Proof.
  intros Hpos Hgs. induction k as [|k IH]; intros st; [reflexivity|].
  cbn [batches_from Nat.mul]. rewrite state_after_add.
  eexists. split; [|apply IH].
  pose proof (InfiniteGenerator_Yields inv (N.to_nat gs) st) as Hy.
  destruct (values_from inv st (N.to_nat gs)) as [|v l] eqn:E.
  - apply (f_equal (@length T)) in E. rewrite values_from_length in E.
    cbn in E. lia.
  - apply GroupGenerator_pulls_full; [exact Hgs | | exact Hy].
    apply (f_equal (@length T)) in E. rewrite values_from_length in E.
    cbn [length] in E. lia.
Qed.

(** X21: [group] works on a stream that never ends: on the stream of a
    value generator, [group(g)] followed by [get(k)] returns [k] groups of
    exactly [g] values each, which together are the first [k * g] values
    of the generator in order. *)
Theorem group_then_get_on_a_value_generator :
  forall (St T : Type) (vg : ValueGenerator St T) (g k : N),
    (1 <= g)%N ->
    (g <= SIZE_MAX)%N ->
    (k <= SIZE_MAX)%N ->
    let out := batches vg (N.to_nat g) (N.to_nat k) in
    eventually
      (fun fuel =>
         pipe_to_vector fuel
           (pipe_get (pipe_group (Stream_value_generator vg) (group_ctor g))
              {| get_amount := k |})
           to_vector_ctor)
      (Returns out) /\
    length out = N.to_nat k /\
    Forall (fun grp => length grp = N.to_nat g) out /\
    concat out = values vg (N.to_nat k * N.to_nat g).
Proof.
  intros St T [inv st] g k Hpos Hg Hk out. unfold out, batches, values.
  cbn [invoke captured].
  destruct (batches_from_sizes inv (N.to_nat g) (N.to_nat k) st) as [Hlen Hall].
  split; [|split; [exact Hlen | split; [exact Hall | apply batches_from_concat]]].
  apply pipe_to_vector_Produces; [reflexivity|].
  unfold StreamProduces.
  pose proof (GroupGenerator_Infinite_Yields inv Hpos Hg (N.to_nat k) st) as Hy.
  assert (Hlk : (0 + N.of_nat (length (batches_from inv st (N.to_nat g) (N.to_nat k)))
                 = k)%N) by (rewrite Hlen; lia).
  exact (GetGenerator_Produces_of_Yields _ Hk _ _ _ Hlk Hy).
Qed.

Lemma group_then_get_on_a_value_generator_witness :
  (1 <= 2)%N /\ (2 <= SIZE_MAX)%N /\ (2 <= SIZE_MAX)%N /\
  eventually
    (fun fuel =>
       pipe_to_vector fuel
         (pipe_get (pipe_group (Stream_value_generator (counter 1)) (group_ctor 2))
            {| get_amount := 2 |})
         to_vector_ctor)
    (Returns [[1; 2]; [3; 4]]%Z).
Proof.
  split; [vm_compute; discriminate|].
  split; [vm_compute; discriminate|].
  split; [vm_compute; discriminate|].
  apply (@group_then_get_on_a_value_generator Z Z (counter 1) 2%N 2%N);
    vm_compute; discriminate.
Defined.

(** ** [PackGenerator] used in place *)

(** X22: [push_back] appends the value and seats the cursor on
    [crbegin()], wherever it stood: the generator then produces the value
    just pushed followed by everything pushed before it, latest first. *)
Theorem push_back_rewinds_the_pack :
  forall (T : Type) (g : PackGenerator.t T) (value : T),
    Produces (PackGenerator.push_back g value)
      (value :: rev (PackGenerator.container_ g)).
Proof.
  intros T g value. unfold PackGenerator.push_back.
  pose proof (@PackGenerator_Produces_from T (PackGenerator.container_ g ++ [value])
                (length (PackGenerator.container_ g ++ [value])) (le_n _)) as Hp.
  rewrite firstn_all, rev_app_distr in Hp. exact Hp.
Qed.

(** X23: a stream built from a literal pack is tagged [Finite], keeps its
    arguments back to front and, used in place, gives a terminal operation
    the arguments in the order they were written: [to_vector] returns
    them, [nth(0)] returns the first. *)
Theorem pack_stream_in_place :
  forall (T : Type) (first : T) (args : list T),
    let s := Stream_pack first args in
    PackGenerator.container_ (generator_ s) = rev (first :: args) /\
    tag s = Finite /\
    StreamProduces s (first :: args) /\
    eventually (fun fuel => pipe_to_vector fuel s to_vector_ctor)
      (Returns (first :: args)) /\
    eventually (fun fuel => pipe_nth fuel s {| n := 0 |}) (Returns first).
Proof.
  intros T first args s.
  pose proof (Stream_pack_Produces first args) as Hp. fold s in Hp.
  split; [|split; [|split; [|split]]].
  - unfold s. now rewrite Stream_pack_generator.
  - apply Stream_pack_tag.
  - exact Hp.
  - apply pipe_to_vector_Produces; [apply Stream_pack_tag | exact Hp].
  - destruct Hp as (g' & (g1 & Hpull & _) & _).
    apply (@pipe_nth_reaches _ _ _ s [] first g1 0%N);
      [reflexivity | | reflexivity].
    exists g1. split; [exact Hpull | reflexivity].
Qed.

(** ** [get], [skip] and [group] over a finite sequence *)

(** X24: a [GetGenerator] built over any parent that produces [l]
    produces the first [min n k] elements of [l] and [std::nullopt] on
    every later pull, all of [l] when [k] exceeds its length [n].  For a
    stream whose generator survives the move constructor (every generator
    but [PackGenerator]), [get(k)] followed by [to_vector] returns these
    elements and raises no error. *)
Theorem get_takes_the_first_elements :
  forall (G T : Type) (Gen : Generator G T) (s : Stream G) (l : list T) (k : N),
    (k <= SIZE_MAX)%N ->
    StreamProduces s l ->
    let taken := pipe_get s {| get_amount := k |} in
    let out := firstn (N.to_nat k) l in
    Produces (GetGenerator.ctor (generator_ s) k) out /\
    length out = Nat.min (length l) (N.to_nat k) /\
    (length l <= N.to_nat k -> out = l) /\
    (Relocatable G ->
     StreamProduces taken out /\
     eventually (fun fuel => pipe_to_vector fuel taken to_vector_ctor) (Returns out)).
Proof.
  intros G T Gen s l k Hk Hp taken out.
  split; [|split; [|split]].
  - unfold GetGenerator.ctor, out. rewrite <- (N.sub_0_r k) at 2.
    apply GetGenerator_Produces; [exact Hk | lia | exact Hp].
  - unfold out. rewrite length_firstn. lia.
  - intros Hle. unfold out. now apply firstn_all2.
  - intros R.
    assert (Hout : StreamProduces taken out) by now apply pipe_get_Produces.
    split; [exact Hout|].
    apply pipe_to_vector_Produces; [reflexivity | exact Hout].
Qed.

Lemma get_takes_the_first_elements_witness :
  (7 <= SIZE_MAX)%N /\
  StreamProduces (Stream_initializer_list one_to_five) one_to_five /\
  eventually
    (fun fuel =>
       pipe_to_vector fuel
         (pipe_get (Stream_initializer_list one_to_five) {| get_amount := 7 |})
         to_vector_ctor)
    (Returns one_to_five).
Proof.
  split; [vm_compute; discriminate|].
  split; [apply Stream_initializer_list_Produces|].
  apply (@get_takes_the_first_elements (ContainerGenerator.t Z) Z _
           (Stream_initializer_list one_to_five) one_to_five 7%N).
  - vm_compute; discriminate.
  - apply Stream_initializer_list_Produces.
  - exact ContainerGenerator_Relocatable.
Defined.

(** X25: a [SkipGenerator] built over any parent that produces [l], of
    length [n], produces the last [max (n - k) 0] elements of [l] in order.
    The constructor pulls nothing and leaves [skipped_] unset; every call
    that returns sets it, and a call that finds it set goes straight to the
    parent; when the parent runs out during the skip phase, that pull and
    every later one return [std::nullopt].  For a finite stream whose
    generator survives the move constructor (every generator but
    [PackGenerator]), [skip(k)] followed by [to_vector] returns these
    elements. *)
Theorem skip_drops_the_first_elements :
  forall (G T : Type) (Gen : Generator G T) (s : Stream G) (l : list T) (k : N),
    tag s = Finite ->
    (k <= SIZE_MAX)%N ->
    StreamProduces s l ->
    let skipped := pipe_skip s {| skip_amount := k |} in
    let built := SkipGenerator.ctor (generator_ s) k in
    let out := skipn (N.to_nat k) l in
    Produces built out /\
    length out = Nat.max (length l - N.to_nat k) 0 /\
    out = lastn (Nat.max (length l - N.to_nat k) 0) l /\
    built =
      {| SkipGenerator.parent_gen_ := copy_ctor (generator_ s);
         SkipGenerator.amount_to_skip_ := k;
         SkipGenerator.skipped_ := false |} /\
    (forall fuel (this this' : SkipGenerator.t G) opt,
        call fuel this = Ret (opt, this') -> SkipGenerator.skipped_ this' = true) /\
    (forall fuel (this : SkipGenerator.t G),
        SkipGenerator.skipped_ this = true ->
        call fuel this =
          '(opt, parent') <- call fuel (SkipGenerator.parent_gen_ this) ;;
          Ret (opt, {| SkipGenerator.parent_gen_ := parent';
                       SkipGenerator.amount_to_skip_ :=
                         SkipGenerator.amount_to_skip_ this;
                       SkipGenerator.skipped_ := true |})) /\
    (length l < N.to_nat k -> Exhausted built) /\
    (Relocatable G ->
     StreamProduces skipped out /\
     eventually (fun fuel => pipe_to_vector fuel skipped to_vector_ctor)
       (Returns out)).
Proof.
  intros G T Gen s l k Htag Hk Hp skipped built out.
  assert (Hbuilt : Produces built out) by now apply SkipGenerator_Produces.
  split; [exact Hbuilt|]. split; [|split; [|split; [|split; [|split; [|split]]]]].
  - unfold out. rewrite length_skipn. lia.
  - unfold out, lastn.
    destruct (Nat.le_gt_cases (N.to_nat k) (length l)) as [Hle|Hgt].
    + f_equal. lia.
    + rewrite !skipn_all2 by lia. reflexivity.
  - reflexivity.
  - intros fuel this this' opt. apply SkipGenerator_call_marks.
  - intros fuel this. apply SkipGenerator_call_skipped.
  - intros Hshort. apply Produces_nil.
    unfold out in Hbuilt. now rewrite skipn_all2 in Hbuilt by lia.
  - intros R.
    assert (Hout : StreamProduces skipped out) by now apply pipe_skip_Produces.
    split; [exact Hout|].
    apply pipe_to_vector_Produces; [exact Htag | exact Hout].
Qed.

Lemma skip_drops_the_first_elements_witness :
  tag (Stream_initializer_list one_to_five) = Finite /\
  (2 <= SIZE_MAX)%N /\
  StreamProduces (Stream_initializer_list one_to_five) one_to_five /\
  eventually
    (fun fuel =>
       pipe_to_vector fuel
         (pipe_skip (Stream_initializer_list one_to_five) {| skip_amount := 2 |})
         to_vector_ctor)
    (Returns [3; 4; 5]%Z).
Proof.
  split; [reflexivity|].
  split; [vm_compute; discriminate|].
  split; [apply Stream_initializer_list_Produces|].
  apply (@skip_drops_the_first_elements (ContainerGenerator.t Z) Z _
           (Stream_initializer_list one_to_five) one_to_five 2%N).
  - reflexivity.
  - vm_compute; discriminate.
  - apply Stream_initializer_list_Produces.
  - exact ContainerGenerator_Relocatable.
Defined.

(** X26: a [GroupGenerator] with group size [g >= 1] built over any
    parent that produces [l], of length [n], produces [ceil(n / g)]
    groups; every group but the last has exactly [g] elements, no group is
    empty or longer than [g], and the groups concatenated give [l] back.  A
    pull of the group generator returns [std::nullopt] exactly when the
    first pull of its batch does, and a group it returns is never empty.
    For a finite stream whose generator survives the move constructor
    (every generator but [PackGenerator]), [group(g)] followed by
    [to_vector] returns these groups. *)
Theorem group_cuts_batches :
  forall (G T : Type) (Gen : Generator G T) (s : Stream G) (l : list T) (g : N),
    tag s = Finite ->
    (1 <= g)%N ->
    (g <= SIZE_MAX)%N ->
    StreamProduces s l ->
    let grouped := pipe_group s (group_ctor g) in
    let built := GroupGenerator.ctor (generator_ s) g in
    let groups := chunks (N.to_nat g) l in
    Produces built groups /\
    length groups = ceil_div (length l) (N.to_nat g) /\
    Forall (fun grp => length grp = N.to_nat g) (removelast groups) /\
    Forall (fun grp => grp <> [] /\ length grp <= N.to_nat g) groups /\
    concat groups = l /\
    (forall fuel (this this' : GroupGenerator.t G),
        call fuel this = Ret (None, this') <->
        exists p',
          call fuel (GroupGenerator.parent_gen_ this) = Ret (None, p') /\
          this' = {| GroupGenerator.parent_gen_ := p';
                     GroupGenerator.group_size_ :=
                       GroupGenerator.group_size_ this |}) /\
    (forall fuel (this this' : GroupGenerator.t G) (grp : list T),
        call fuel this = Ret (Some grp, this') -> grp <> []) /\
    (Relocatable G ->
     StreamProduces grouped groups /\
     eventually (fun fuel => pipe_to_vector fuel grouped to_vector_ctor)
       (Returns groups)).
Proof.
  intros G T Gen s l g Htag Hpos Hg Hp grouped built groups.
  assert (Hg' : 1 <= N.to_nat g) by lia.
  split; [|split; [|split; [|split; [|split; [|split; [|split]]]]]].
  - now apply GroupGenerator_Produces.
  - apply chunks_upto_length; [exact Hg' | apply le_n].
  - apply chunks_upto_full.
  - apply chunks_upto_bounded. exact Hg'.
  - apply chunks_upto_concat; [exact Hg' | apply le_n].
  - intros fuel this this'. apply GroupGenerator_call_nullopt.
  - intros fuel this this' grp. apply GroupGenerator_call_nonempty.
  - intros R.
    assert (Hout : StreamProduces grouped groups) by now apply pipe_group_Produces.
    split; [exact Hout|].
    apply pipe_to_vector_Produces; [exact Htag | exact Hout].
Qed.

Lemma group_cuts_batches_witness :
  tag (Stream_initializer_list one_to_five) = Finite /\
  (1 <= 3)%N /\ (3 <= SIZE_MAX)%N /\
  StreamProduces (Stream_initializer_list one_to_five) one_to_five /\
  eventually
    (fun fuel =>
       pipe_to_vector fuel
         (pipe_group (Stream_initializer_list one_to_five) (group_ctor 3))
         to_vector_ctor)
    (Returns [[1; 2; 3]; [4; 5]]%Z).
Proof.
  split; [reflexivity|].
  split; [vm_compute; discriminate|].
  split; [vm_compute; discriminate|].
  split; [apply Stream_initializer_list_Produces|].
  apply (@group_cuts_batches (ContainerGenerator.t Z) Z _
           (Stream_initializer_list one_to_five) one_to_five 3%N).
  - reflexivity.
  - vm_compute; discriminate.
  - vm_compute; discriminate.
  - apply Stream_initializer_list_Produces.
  - exact ContainerGenerator_Relocatable.
Defined.
